(** * Dependency-graph construction of [services/dependencyService.ts]

    A shallow embedding of the import extractors, of the path resolver
    [resolveImport] and of the graph builder [generateDependencyGraph],
    followed by the properties stated for them.

    JavaScript strings are modelled by [string]; a character stands for one
    code unit in the range 0..255.  Arrays are lists whose end is the right
    end ([push] appends, [pop] removes the last element).  A [Set] of strings
    is the list of its elements in insertion order. *)

From Stdlib Require Import List String Ascii Arith Lia Bool.
Import ListNotations.
Open Scope list_scope.
Open Scope string_scope.
Open Scope nat_scope.

Set Warnings "-register-all".

(* ================================================================== *)
(** * Regular expressions *)
(* ================================================================== *)

(** A backtracking matcher in continuation-passing style, as ECMAScript
    defines pattern semantics, for the constructs the source's regular
    expressions use.  Quantifiers only occur over one-character classes in
    the source, which keeps the matcher structurally recursive. *)
Module RegExp.

Definition chars := list ascii.

Record MState := mkState {
  prev : option ascii;          (* the character before the position *)
  rest : chars;                 (* the input from the position on *)
  idx  : nat;                   (* the position *)
  caps : list (nat * chars)     (* captures, most recent first *)
}.

Definition Cont := MState -> option MState.

Inductive re :=
| Eps
| Chr (p : ascii -> bool)            (* one character of a class *)
| Seq (a b : re)
| Alt (a b : re)                     (* a|b *)
| Plus (p : ascii -> bool)           (* C+   greedy *)
| StarLazy (p : ascii -> bool)       (* C*?  lazy *)
| Group (n : nat) (a : re)           (* capturing group number n *)
| Bol                                (* ^ under the m flag *)
| Eos.                               (* $ without the m flag *)

Definition isChar (c : ascii) : ascii -> bool := Ascii.eqb c.

Fixpoint lit (s : string) : re :=
  match s with
  | EmptyString => Eps
  | String c s' => Seq (Chr (isChar c)) (lit s')
  end.

(** [\s]: tab, line feed, vertical tab, form feed, carriage return, space,
    no-break space. *)
Definition isSpace (c : ascii) : bool :=
  let n := nat_of_ascii c in
  ((9 <=? n) && (n <=? 13)) || (n =? 32) || (n =? 160).

Definition notSpace (c : ascii) : bool := negb (isSpace c).
Definition anyChar (_ : ascii) : bool := true.

Definition isLineTerminator (c : ascii) : bool :=
  let n := nat_of_ascii c in (n =? 10) || (n =? 13).

Definition step (c : ascii) (t : chars) (st : MState) : MState :=
  mkState (Some c) t (S (idx st)) (caps st).

Definition setCap (n : nat) (w : chars) (st : MState) : MState :=
  mkState (prev st) (rest st) (idx st) ((n, w) :: caps st).

Definition atLineStart (st : MState) : bool :=
  match prev st with
  | None => true
  | Some c => isLineTerminator c
  end.

Fixpoint plusGreedy (p : ascii -> bool) (k : Cont) (l : chars) (st : MState)
  : option MState :=
  match l with
  | [] => None
  | c :: t =>
      if p c then
        let st' := step c t st in
        match plusGreedy p k t st' with
        | Some r => Some r
        | None => k st'
        end
      else None
  end.

Fixpoint starLazy (p : ascii -> bool) (k : Cont) (l : chars) (st : MState)
  : option MState :=
  match k st with
  | Some r => Some r
  | None =>
      match l with
      | [] => None
      | c :: t => if p c then starLazy p k t (step c t st) else None
      end
  end.

Fixpoint m (r : re) (k : Cont) (st : MState) {struct r} : option MState :=
  match r with
  | Eps => k st
  | Chr p =>
      match rest st with
      | c :: t => if p c then k (step c t st) else None
      | [] => None
      end
  | Seq a b => m a (m b k) st
  | Alt a b =>
      match m a k st with
      | Some x => Some x
      | None => m b k st
      end
  | Plus p => plusGreedy p k (rest st) st
  | StarLazy p => starLazy p k (rest st) st
  | Group n a =>
      m a (fun st' => k (setCap n (firstn (idx st' - idx st) (rest st)) st')) st
  | Bol => if atLineStart st then k st else None
  | Eos => match rest st with [] => k st | _ :: _ => None end
  end.

Definition stateAt (s : chars) (i : nat) : MState :=
  mkState (match i with 0 => None | S j => nth_error s j end) (skipn i s) i [].

(** One attempt at position [i]. *)
Definition matchAt (r : re) (s : chars) (i : nat) : option MState :=
  m r Some (stateAt s i).

(** The leftmost position in [i .. i+n] where the pattern matches. *)
Fixpoint search (r : re) (s : chars) (i n : nat) : option (nat * MState) :=
  match matchAt r s i with
  | Some st => Some (i, st)
  | None =>
      match n with
      | 0 => None
      | S n' => search r s (S i) n'
      end
  end.

(** The value of capture [n]: [None] is JavaScript's [undefined]. *)
Fixpoint capture (n : nat) (cs : list (nat * chars)) : option string :=
  match cs with
  | [] => None
  | (j, w) :: cs' =>
      if j =? n then Some (string_of_list_ascii w) else capture n cs'
  end.

Record Match := mkMatch {
  index : nat;        (* where the match starts *)
  endIndex : nat;     (* where it ends *)
  groups : list (nat * chars)
}.

(** [re.exec(s)] of a pattern with the g flag, whose [lastIndex] is threaded:
    the result and the new [lastIndex]. *)
Definition exec (r : re) (s : string) (lastIndex : nat) : option Match * nat :=
  let cs := list_ascii_of_string s in
  if List.length cs <? lastIndex then (None, 0)
  else
    match search r cs lastIndex (List.length cs - lastIndex) with
    | Some (i, st) => (Some (mkMatch i (idx st) (caps st)), idx st)
    | None => (None, 0)
    end.

(** [while ((match = re.exec(s)) !== null) out.push(f(match))].  The loop is
    bounded by [fuel]; [None] means the bound was reached. *)
Fixpoint execLoop (fuel : nat) (r : re) (s : string) (f : Match -> string)
    (lastIndex : nat) (out : list string) : option (list string) :=
  match fuel with
  | 0 => None
  | S fuel' =>
      match exec r s lastIndex with
      | (None, _) => Some out
      | (Some mt, lastIndex') =>
          execLoop fuel' r s f lastIndex' (out ++ [f mt])
      end
  end.

(** [s.match(re)] without the g flag, as a truth value. *)
Definition test (r : re) (s : string) : bool :=
  let cs := list_ascii_of_string s in
  match search r cs 0 (List.length cs) with
  | Some _ => true
  | None => false
  end.

(** [s.replace(re, "")] without the g flag: the leftmost match is removed. *)
Definition replaceEmpty (r : re) (s : string) : string :=
  let cs := list_ascii_of_string s in
  match search r cs 0 (List.length cs) with
  | Some (i, st) => string_of_list_ascii (firstn i cs ++ skipn (idx st) cs)
  | None => s
  end.

End RegExp.

Import RegExp.

(* ================================================================== *)
(** * Strings, arrays and sets *)
(* ================================================================== *)

(** [s.startsWith(p)] *)
Definition startsWith (s p : string) : bool := String.prefix p s.

(** [s.endsWith(t)] *)
Definition endsWith (s t : string) : bool :=
  (String.length t <=? String.length s) &&
  String.eqb (substring (String.length s - String.length t) (String.length t) s) t.

(** [s.split(c)] for a one-character separator: never the empty array. *)
Fixpoint split (c : ascii) (s : string) : list string :=
  match s with
  | EmptyString => [EmptyString]
  | String a s' =>
      if Ascii.eqb a c then EmptyString :: split c s'
      else
        match split c s' with
        | h :: t => String a h :: t
        | [] => [String a EmptyString]
        end
  end.

(** [parts.join(sep)] *)
Fixpoint join (sep : string) (parts : list string) : string :=
  match parts with
  | [] => EmptyString
  | [x] => x
  | x :: t => x ++ sep ++ join sep t
  end.

(** [a.pop()] as a statement: the array afterwards. *)
Definition pop {A : Type} (a : list A) : list A := removelast a.

(** [a.pop()] as an expression on an array of strings: the removed element,
    [None] for [undefined]. *)
Definition popped (a : list string) : option string :=
  match a with
  | [] => None
  | _ :: _ => Some (last a EmptyString)
  end.

(** [a.push(x)]: the array afterwards. *)
Definition push {A : Type} (a : list A) (x : A) : list A := (a ++ [x])%list.

(** A [Set<string>]: its elements in insertion order. *)
Definition JsSet := list string.

Definition has (s : JsSet) (x : string) : bool := existsb (String.eqb x) s.

Definition add (s : JsSet) (x : string) : JsSet :=
  if has s x then s else (s ++ [x])%list.

(** [new Set(xs)] *)
Definition newSet (xs : list string) : JsSet := fold_left add xs [].

(** Truthiness of a value of type [string | undefined]. *)
Definition truthy (v : option string) : bool :=
  match v with
  | None => false
  | Some EmptyString => false
  | Some (String _ _) => true
  end.

(* ================================================================== *)
(** * resolveImport *)
(* ================================================================== *)

Definition slash : ascii := "/"%char.

(** The loop body of [for (const part of importParts)]. *)
Definition resolvePart (sourceDirParts : list string) (part : string)
  : list string :=
  if String.eqb part "." then sourceDirParts
  else if String.eqb part ".." then
    if 0 <? List.length sourceDirParts then pop sourceDirParts
    else sourceDirParts
  else push sourceDirParts part.

Definition extensions : list string :=
  [""; ".ts"; ".tsx"; ".js"; ".jsx"; "/index.ts"; "/index.tsx"].

(** [for (const ext of extensions)] with its early return. *)
Fixpoint tryExtensions (resolvedBase : string) (exts : list string)
    (allFiles : JsSet) : option string :=
  match exts with
  | [] => None
  | ext :: exts' =>
      let candidate := resolvedBase ++ ext in
      if has allFiles candidate then Some candidate
      else tryExtensions resolvedBase exts' allFiles
  end.

Definition resolvedBase (sourceFile importPath : string) : string :=
  let sourceDirParts := pop (split slash sourceFile) in
  let importParts := split slash importPath in
  join "/" (fold_left resolvePart importParts sourceDirParts).

(** Step 1 of [resolveImport]: [Some] when the block returns. *)
Definition resolveRelative (sourceFile importPath : string) (allFiles : JsSet)
  : option string :=
  if startsWith importPath "." then
    tryExtensions (resolvedBase sourceFile importPath) extensions allFiles
  else None.

Definition notSlashDot (c : ascii) : bool :=
  negb (Ascii.eqb c "/"%char || Ascii.eqb c "."%char).

(** [/\.[^/.]+$/] *)
Definition extRegex : re :=
  Seq (Chr (isChar "."%char)) (Seq (Plus notSlashDot) Eos).

(** [for (const file of allFiles)] with its early return. *)
Fixpoint scanFiles (importPath : string) (files : list string) : option string :=
  match files with
  | [] => None
  | file :: files' =>
      let fileNoExt := replaceEmpty extRegex file in
      if endsWith fileNoExt importPath || endsWith fileNoExt ("/" ++ importPath)
      then Some file
      else scanFiles importPath files'
  end.

(** Steps 2 and 3 of [resolveImport]. *)
Definition resolveAbsolute (importPath : string) (allFiles : JsSet)
  : option string :=
  if has allFiles importPath then Some importPath
  else
    let importBase := popped (split slash importPath) in
    if negb (truthy importBase) then None
    else scanFiles importPath allFiles.

Definition resolveImport (sourceFile importPath : string) (allFiles : JsSet)
  : option string :=
  match resolveRelative sourceFile importPath allFiles with
  | Some candidate => Some candidate
  | None => resolveAbsolute importPath allFiles
  end.

(* ================================================================== *)
(** * Import extractors *)
(* ================================================================== *)

(** [/from\s+(\S+)\s+import/g] *)
Definition pyFromRegex : re :=
  Seq (lit "from") (Seq (Plus isSpace) (Seq (Group 1 (Plus notSpace))
    (Seq (Plus isSpace) (lit "import")))).

(** [/^import\s+(\S+)/gm] *)
Definition pyImportRegex : re :=
  Seq Bol (Seq (lit "import") (Seq (Plus isSpace) (Group 1 (Plus notSpace)))).

(** [match[1]]; both patterns set group 1 in every match. *)
Definition group1 (mt : Match) : string :=
  match capture 1 (groups mt) with
  | Some x => x
  | None => EmptyString
  end.

(** The two [while] loops of [parsePythonImports], bounded by [fuel]. *)
Definition parsePythonImportsFuel (fuel : nat) (content : string)
  : option (list string) :=
  match execLoop fuel pyFromRegex content group1 0 [] with
  | Some imports => execLoop fuel pyImportRegex content group1 0 imports
  | None => None
  end.

(** Each iteration but the last moves [lastIndex] forward, so
    [length content + 1] iterations are enough ([parsePythonImportsFuel_enough]
    below); the default is never taken. *)
Definition parsePythonImports (content : string) : list string :=
  match parsePythonImportsFuel (S (String.length content)) content with
  | Some imports => imports
  | None => []
  end.

Definition isQuote (c : ascii) : bool :=
  Ascii.eqb c "'"%char || Ascii.eqb c (ascii_of_nat 34).

Definition notQuote (c : ascii) : bool := negb (isQuote c).

(** [/import\s+[\s\S]*?from\s+['"]([^'"]+)['"]|import\s+['"]([^'"]+)['"]/g] *)
Definition fallbackRegex : re :=
  Alt
    (Seq (lit "import") (Seq (Plus isSpace) (Seq (StarLazy anyChar)
      (Seq (lit "from") (Seq (Plus isSpace) (Seq (Chr isQuote)
        (Seq (Group 1 (Plus notQuote)) (Chr isQuote))))))))
    (Seq (lit "import") (Seq (Plus isSpace) (Seq (Chr isQuote)
      (Seq (Group 2 (Plus notQuote)) (Chr isQuote))))).

(** [match[1] || match[2]]; one of the two groups is set, and non-empty, in
    every match. *)
Definition group1or2 (mt : Match) : string :=
  let m1 := capture 1 (groups mt) in
  match (if truthy m1 then m1 else capture 2 (groups mt)) with
  | Some x => x
  | None => EmptyString
  end.

Definition fallbackRegexExtractFuel (fuel : nat) (content : string)
  : option (list string) :=
  execLoop fuel fallbackRegex content group1or2 0 [].

Definition fallbackRegexExtract (content : string) : list string :=
  match fallbackRegexExtractFuel (S (String.length content)) content with
  | Some imports => imports
  | None => []
  end.

(** ** The syntax tree of the TypeScript compiler API

    The library is not part of the repository.  Its trees are modelled by the
    node kinds [parseJsTsImports] tells apart, each with the properties the
    function reads and with the children [ts.forEachChild] enumerates. *)
Inductive Node :=
| SourceFile (children : list Node)
| ImportDeclaration (moduleSpecifier : option Node) (children : list Node)
| ExportDeclaration (moduleSpecifier : option Node) (children : list Node)
| CallExpression (expression : Node) (arguments : list Node)
    (children : list Node)
| Identifier (text : string)
| StringLiteral (text : string)
| ImportKeyword
| OtherNode (children : list Node).

(** Thrown values. *)
Inductive Error :=
| RangeError          (* the call stack is exhausted *)
| LibraryError (message : string).

Inductive Result (A : Type) :=
| Ok (a : A)
| Throw (e : Error).
Arguments Ok {A} a.
Arguments Throw {A} e.

Definition bind {A B : Type} (x : Result A) (f : A -> Result B) : Result B :=
  match x with
  | Ok a => f a
  | Throw e => Throw e
  end.

(** [try { body } catch (e) { return handler }] around a body that ends the
    function with its value. *)
Definition tryCatch {A : Type} (body : Result A) (handler : Error -> A) : A :=
  match body with
  | Ok a => a
  | Throw e => handler e
  end.

(** [node.moduleSpecifier && ts.isStringLiteral(node.moduleSpecifier)] and
    the push that follows. *)
Definition pushSpecifier (imports : list string) (spec : option Node)
  : list string :=
  match spec with
  | Some (StringLiteral text) => push imports text
  | _ => imports
  end.

(** [node.arguments.length > 0 && ts.isStringLiteral(node.arguments[0])] and
    the push that follows. *)
Definition pushFirstArgument (imports : list string) (args : list Node)
  : list string :=
  match args with
  | StringLiteral text :: _ => push imports text
  | _ => imports
  end.

(** What [visit] does at one node before it descends. *)
Definition collect (node : Node) (imports : list string) : list string :=
  match node with
  | ImportDeclaration spec _ => pushSpecifier imports spec
  | ExportDeclaration spec _ => pushSpecifier imports spec
  | CallExpression (Identifier text) args _ =>
      if String.eqb text "require" then pushFirstArgument imports args
      else imports
  | CallExpression ImportKeyword args _ => pushFirstArgument imports args
  | _ => imports
  end.

(* ================================================================== *)
(** * The graph builder *)
(* ================================================================== *)

(** Modelled from the spec: the declaration of [FileContext] in [types.ts] is
    not among the sources.  The kinds are the spec's Code, Image, Log, Metric
    and Issue, under the string literals the code compares [type] with. *)
Inductive FileType := file | image | log | metric | issue.

Definition FileType_eqb (a b : FileType) : bool :=
  match a, b with
  | file, file | image, image | log, log | metric, metric | issue, issue => true
  | _, _ => false
  end.

Record FileContext := mkFile {
  id : string;
  name : string;
  type : FileType;
  content : string
}.

Record GraphNode := mkNode {
  node_id : string;
  node_name : string;
  node_type : FileType;
  val : nat
}.

Record Link := mkLink {
  source : string;
  target : string
}.

Record DependencyGraphData := mkGraph {
  nodes : list GraphNode;
  links : list Link
}.

(** [/\.(ts|tsx|js|jsx)$/] *)
Definition jsTsRegex : re :=
  Seq (Chr (isChar "."%char))
    (Seq (Group 1 (Alt (lit "ts") (Alt (lit "tsx") (Alt (lit "js") (lit "jsx")))))
       Eos).

Section Extractors.

(** [ts.createSourceFile(fileName, content, ...)]: a tree, or a thrown
    error. *)
Variable createSourceFile : string -> string -> Result Node.

(** How many nested calls of [visit] the engine's call stack has room for;
    one more raises a [RangeError]. *)
Variable maxCallDepth : nat.

(** [visit], with the array [imports] threaded through; [depth] counts the
    enclosing calls of [visit]. *)
Fixpoint visit (depth : nat) (node : Node) (imports : list string)
  {struct node} : Result (list string) :=
  if maxCallDepth <=? depth then Throw RangeError
  else
    let forEachChild :=
      fix forEachChild (cs : list Node) (imports : list string)
        : Result (list string) :=
        match cs with
        | [] => Ok imports
        | c :: cs' => bind (visit (S depth) c imports) (forEachChild cs')
        end in
    match node with
    | SourceFile cs | ImportDeclaration _ cs | ExportDeclaration _ cs
    | CallExpression _ _ cs | OtherNode cs =>
        forEachChild cs (collect node imports)
    | Identifier _ | StringLiteral _ | ImportKeyword =>
        Ok (collect node imports)
    end.

Definition parseJsTsImports (content fileName : string) : list string :=
  tryCatch
    (bind (createSourceFile fileName content)
          (fun sourceFile => visit 0 sourceFile []))
    (fun _ => fallbackRegexExtract content).

(** "1. Choose Parser" *)
Definition importsOf (f : FileContext) : list string :=
  if test jsTsRegex (name f) then parseJsTsImports (content f) (name f)
  else if endsWith (name f) ".py" then parsePythonImports (content f)
  else [].

(** The body of [imports.forEach]. *)
Definition linkImport (f : FileContext) (filePaths : JsSet)
    (links : list Link) (imp : string) : list Link :=
  let target := resolveImport (name f) imp filePaths in
  if truthy target then
    match target with
    | Some t => push links (mkLink (name f) t)
    | None => links
    end
  else links.

(** The body of [files.forEach]. *)
Definition linkFile (filePaths : JsSet) (links : list Link) (f : FileContext)
  : list Link :=
  if FileType_eqb (type f) file then
    fold_left (linkImport f filePaths) (importsOf f) links
  else links.

Definition generateDependencyGraph (files : list FileContext)
  : DependencyGraphData :=
  let nodes := map (fun f => mkNode (name f) (name f) (type f) 1) files in
  let links := [] in
  let filePaths := newSet (map name files) in
  let links := fold_left (linkFile filePaths) files links in
  mkGraph nodes links.

End Extractors.

(* ================================================================== *)
(** * All matches of a pattern, in text order *)
(* ================================================================== *)

(** The least number of characters a match of the pattern takes. *)
Fixpoint minLen (r : re) : nat :=
  match r with
  | Eps | StarLazy _ | Bol | Eos => 0
  | Chr _ | Plus _ => 1
  | Seq a b => minLen a + minLen b
  | Alt a b => Nat.min (minLen a) (minLen b)
  | Group _ a => minLen a
  end.

(** [AllMatches r s from ms]: [ms] lists the matches of [r] in [s] from
    position [from] on, each the leftmost one at or after the end of the one
    before it. *)
Inductive AllMatches (r : re) (s : chars) : nat -> list Match -> Prop :=
| AllMatches_nil (from : nat) :
    (forall q, from <= q <= List.length s -> matchAt r s q = None) ->
    AllMatches r s from []
| AllMatches_cons (from i : nat) (st : MState) (ms : list Match) :
    from <= i <= List.length s ->
    matchAt r s i = Some st ->
    (forall q, from <= q < i -> matchAt r s q = None) ->
    AllMatches r s (idx st) ms ->
    AllMatches r s from (mkMatch i (idx st) (caps st) :: ms).

(** Each match starts at or after [from], is not empty, and ends before the
    next one starts. *)
Fixpoint textOrder (from : nat) (ms : list Match) : Prop :=
  match ms with
  | [] => True
  | mt :: ms' =>
      from <= index mt /\ index mt < endIndex mt /\ textOrder (endIndex mt) ms'
  end.

(** The capture of the match is one maximal run of non-whitespace
    characters of the input: it lies inside the match, whitespace stands
    before it, and whitespace or the end of the input after it. *)
Definition capturesMaximalRun (s : chars) (mt : Match) : Prop :=
  exists before w after,
    s = (before ++ w ++ after)%list
    /\ groups mt = [(1, w)]
    /\ w <> []
    /\ forallb notSpace w = true
    /\ (exists b c, before = (b ++ [c])%list /\ isSpace c = true)
    /\ match after with
       | [] => True
       | c :: _ => isSpace c = true
       end
    /\ index mt < List.length before
    /\ List.length before + List.length w <= endIndex mt.

(* ================================================================== *)
(** * Relative resolution, as the specification words it *)
(* ================================================================== *)

(** The directory stack has its top at the head.  A segment [.] is skipped,
    [..] pops one segment (nothing happens on the empty stack), any other
    segment is pushed. *)
Definition foldSegment (stack : list string) (segment : string) : list string :=
  if String.eqb segment "." then stack
  else if String.eqb segment ".." then
    match stack with
    | [] => []
    | _ :: below => below
    end
  else segment :: stack.

(** The segments of the source without the last one, innermost first. *)
Definition sourceDirectory (sourceId : string) : list string :=
  tl (rev (split slash sourceId)).

Definition relativeBase (sourceId rawImport : string) : string :=
  join "/" (rev (fold_left foldSegment (split slash rawImport)
                   (sourceDirectory sourceId))).

Definition probeSuffixes : list string :=
  [""; ".ts"; ".tsx"; ".js"; ".jsx"; "/index.ts"; "/index.tsx"].

(** The first probed string that is a known id. *)
Definition firstKnownCandidate (base : string) (knownIds : JsSet)
  : option string :=
  find (has knownIds) (map (fun suffix => base ++ suffix) probeSuffixes).

(* ================================================================== *)
(** * The basename scan, as the specification words it *)
(* ================================================================== *)

(** The input cut at its last dot: what stands before it and after it. *)
Fixpoint lastDot (cs : chars) : option (chars * chars) :=
  match cs with
  | [] => None
  | c :: t =>
      match lastDot t with
      | Some (stem, ext) => Some (c :: stem, ext)
      | None => if isChar "."%char c then Some ([], t) else None
      end
  end.

(** A non-empty run of characters that are neither a dot nor a slash. *)
Definition isExtension (ext : chars) : bool :=
  match ext with
  | [] => false
  | _ :: _ => forallb notSlashDot ext
  end.

(** The id without its trailing [.ext]. *)
Definition stripExtension (id : string) : string :=
  match lastDot (list_ascii_of_string id) with
  | Some (stem, ext) =>
      if isExtension ext then string_of_list_ascii stem else id
  | None => id
  end.

Definition lastSegment (rawImport : string) : string :=
  last (split slash rawImport) EmptyString.

Definition suffixMatches (rawImport id : string) : bool :=
  endsWith (stripExtension id) rawImport
  || endsWith (stripExtension id) ("/" ++ rawImport).

(* ================================================================== *)
(** * The edge list, described per file and per import *)
(* ================================================================== *)

(** The edge an import contributes when every resolved import is linked. *)
Definition resolvedEdge (filePaths : JsSet) (f : FileContext) (imp : string)
  : list Link :=
  match resolveImport (name f) imp filePaths with
  | Some t => [mkLink (name f) t]
  | None => []
  end.

(** The edge an import contributes in [generateDependencyGraph], where the
    guard is [if (target)]. *)
Definition emittedEdge (filePaths : JsSet) (f : FileContext) (imp : string)
  : list Link :=
  match resolveImport (name f) imp filePaths with
  | Some t => if truthy (Some t) then [mkLink (name f) t] else []
  | None => []
  end.

(** Edges by file order, then by extraction order. *)
Definition edgesInOrder (edge : FileContext -> string -> list Link)
    (importsOf : FileContext -> list string) (files : list FileContext)
  : list Link :=
  flat_map
    (fun f =>
       if FileType_eqb (type f) file then flat_map (edge f) (importsOf f)
       else [])
    files.

(* ================================================================== *)
(** * Auxiliary notions for the proofs *)
(* ================================================================== *)

(** [advances n st st1]: from [st] to [st1] the matcher has read a word of at
    least [n] characters. *)
Definition advances (n : nat) (st st1 : MState) : Prop :=
  exists w, rest st = (w ++ rest st1)%list
            /\ idx st1 = idx st + List.length w
            /\ n <= List.length w.

(** A dot followed by an extension, at the head of the input. *)
Definition dotExtension (l : chars) : bool :=
  match l with
  | [] => false
  | c :: w => isChar "."%char c && isExtension w
  end.

(** The leftmost position where a dot and an extension end the input. *)
Fixpoint firstDotExtension (l : chars) : option nat :=
  match l with
  | [] => None
  | _ :: t =>
      if dotExtension l then Some 0 else option_map S (firstDotExtension t)
  end.

(** Whether the character occurs in the string. *)
Fixpoint hasChar (c : ascii) (s : string) : bool :=
  match s with
  | EmptyString => false
  | String a s' => Ascii.eqb a c || hasChar c s'
  end.

(** A path segment that the fold pushes: no slash in it, and neither [.] nor
    [..]. *)
Definition plainSegment (seg : string) : bool :=
  negb (hasChar slash seg) && negb (String.eqb seg ".")
  && negb (String.eqb seg "..").

(** [n] times [../] before a path. *)
Fixpoint climb (n : nat) (path : string) : string :=
  match n with
  | 0 => path
  | S n' => "../" ++ climb n' path
  end.

(** The children [ts.forEachChild] enumerates. *)
Definition childrenOf (node : Node) : list Node :=
  match node with
  | SourceFile cs | ImportDeclaration _ cs | ExportDeclaration _ cs
  | CallExpression _ _ cs | OtherNode cs => cs
  | Identifier _ | StringLiteral _ | ImportKeyword => []
  end.

(** The number of nodes on the longest path from the node down. *)
Fixpoint height (node : Node) : nat :=
  match node with
  | SourceFile cs | ImportDeclaration _ cs | ExportDeclaration _ cs
  | CallExpression _ _ cs | OtherNode cs => S (list_max (map height cs))
  | Identifier _ | StringLiteral _ | ImportKeyword => 1
  end.

(** The specifiers of the tree in pre-order: those of the node, then those
    of its children from left to right. *)
Fixpoint preorder (node : Node) : list string :=
  match node with
  | SourceFile cs | ImportDeclaration _ cs | ExportDeclaration _ cs
  | CallExpression _ _ cs | OtherNode cs =>
      (collect node [] ++ flat_map preorder cs)%list
  | Identifier _ | StringLiteral _ | ImportKeyword => collect node []
  end.

(** The loop of [ts.forEachChild(node, visit)] over the children, for a
    given way to visit one child. *)
Definition forEachChild (visitChild : Node -> list string -> Result (list string))
  : list Node -> list string -> Result (list string) :=
  fix go (cs : list Node) (imports : list string) : Result (list string) :=
    match cs with
    | [] => Ok imports
    | c :: cs' => bind (visitChild c imports) (go cs')
    end.

(* ================================================================== *)
(** * The filter of the graph view *)
(* ================================================================== *)

(** The string literal of a kind, as the view compares it with
    [activeType]. *)
Definition typeString (t : FileType) : string :=
  match t with
  | file => "file"
  | image => "image"
  | log => "log"
  | metric => "metric"
  | issue => "issue"
  end.

(** [toLowerCase] on one code unit below 256: the letters A to Z and the
    capital letters of the upper half (all of 192..222 but the
    multiplication sign 215) move up by 32. *)
Definition lowerChar (c : ascii) : ascii :=
  let n := nat_of_ascii c in
  if ((65 <=? n) && (n <=? 90))
     || ((192 <=? n) && (n <=? 222) && negb (n =? 215))
  then ascii_of_nat (n + 32)
  else c.

(** [s.toLowerCase()] *)
Fixpoint toLowerCase (s : string) : string :=
  match s with
  | EmptyString => EmptyString
  | String c s' => String (lowerChar c) (toLowerCase s')
  end.

(** [s.includes(t)] *)
Fixpoint includes (s t : string) : bool :=
  String.prefix t s
  || match s with
     | EmptyString => false
     | String _ s' => includes s' t
     end.

(** An end of a link as the view may find it: the id the service wrote, or
    the node object the layout put in its place. *)
Inductive Endpoint :=
| EndId (id : string)
| EndNode (node : GraphNode).

Record ViewLink := mkViewLink {
  view_source : Endpoint;
  view_target : Endpoint
}.

(** [typeof e === 'object' ? e.id : e] *)
Definition endpointId (e : Endpoint) : string :=
  match e with
  | EndId id => id
  | EndNode node => node_id node
  end.

(** The links of the service's result, as the view receives them. *)
Definition viewLinks (links : list Link) : list ViewLink :=
  map (fun l => mkViewLink (EndId (source l)) (EndId (target l))) links.

(** The callback of [useMemo] in [DependencyGraph]: the nodes and links the
    view draws. *)
Definition graphData (dataNodes : list GraphNode) (dataLinks : list ViewLink)
    (activeType searchTerm : string) : list GraphNode * list Link :=
  let allNodes := map (fun n => n) dataNodes in
  let allLinks :=
    map (fun l => mkLink (endpointId (view_source l))
                         (endpointId (view_target l))) dataLinks in
  let nodes :=
    filter
      (fun n =>
         let typeMatch :=
           String.eqb activeType "all"
           || String.eqb (typeString (node_type n)) activeType in
         let nameMatch :=
           includes (toLowerCase (node_name n)) (toLowerCase searchTerm) in
         typeMatch && nameMatch)
      allNodes in
  let nodeIds := newSet (map node_id nodes) in
  let links :=
    filter (fun l => has nodeIds (source l) && has nodeIds (target l))
      allLinks in
  (nodes, links).

(* ================================================================== *)
(** * More sample inputs *)
(* ================================================================== *)

(** A TypeScript file that imports its neighbour, the neighbour, and a
    picture. *)
Definition threeFiles : list FileContext :=
  [ mkFile "1" "src/a.ts" file "import { b } from './b'";
    mkFile "2" "src/b.ts" file "export const b = 1";
    mkFile "3" "logo.png" image "import './b'" ].

Definition twoNodes : list GraphNode :=
  [ mkNode "src/a.ts" "src/a.ts" file 1; mkNode "Logo.PNG" "Logo.PNG" image 1 ].

Definition twoLinks : list ViewLink :=
  [ mkViewLink (EndId "src/a.ts") (EndNode (mkNode "src/a.ts" "src/a.ts" file 1));
    mkViewLink (EndId "src/a.ts") (EndId "Logo.PNG") ].

(* ================================================================== *)
(** * Sample inputs *)
(* ================================================================== *)

Definition lineFeed : string := String (ascii_of_nat 10) EmptyString.

(** The tree of [import './a'], and a parser that answers with it. *)
Definition importDotA : Node :=
  SourceFile
    [ImportDeclaration (Some (StringLiteral "./a")) [StringLiteral "./a"]].

Definition parseImportDotA (fileName content : string) : Result Node :=
  Ok importDotA.

(** A parser that always throws. *)
Definition parseThrows (fileName content : string) : Result Node :=
  Throw (LibraryError "Debug Failure").

(** A file named by the empty string, and a Python file that imports [.]
    twice. *)
Definition emptyNameFiles : list FileContext :=
  [ mkFile "0" "" file "";
    mkFile "1" "a.py" file ("import ." ++ lineFeed ++ "import .") ].

(* ================================================================== *)
(** * Sample runs *)
(* ================================================================== *)

Example split_samples :
  split slash "x/y.ts" = ["x"; "y.ts"]
  /\ split slash "" = [""]
  /\ split slash "a/" = ["a"; ""]
  /\ split slash "/a" = [""; "a"].
Proof. repeat split. Qed.

Example replace_samples :
  map (replaceEmpty extRegex) ["x/y.ts"; "a.tar.gz"; "a.b/c"; "Makefile"; "v."]
  = ["x/y"; "a.tar"; "a.b/c"; "Makefile"; "v."].
Proof. vm_compute. reflexivity. Qed.

Example suffix_samples :
  map (test jsTsRegex) ["a.ts"; "a.tsx"; "a.js"; "a.jsx"; "a.py"; "a.ts.bak"]
  = [true; true; true; true; false; false].
Proof. vm_compute. reflexivity. Qed.

Example resolve_samples :
  resolveImport "src/a.ts" "./b" ["src/a.ts"; "src/b.ts"] = Some "src/b.ts"
  /\ resolveImport "src/a.ts" "../b" ["src/a.ts"; "b/index.tsx"]
     = Some "b/index.tsx"
  /\ resolveImport "src/a.py" "pkg.mod" ["src/a.py"] = None
  /\ resolveImport "src/a.ts" "components/Button"
       ["src/a.ts"; "src/components/Button.tsx"]
     = Some "src/components/Button.tsx".
Proof. repeat split; vm_compute; reflexivity. Qed.

Example python_samples :
  parsePythonImports
    ("from a.b import c" ++ lineFeed ++ "import os" ++ lineFeed
     ++ "  import indented" ++ lineFeed ++ "import os")
  = ["a.b"; "os"; "os"].
Proof. vm_compute. reflexivity. Qed.

Example fallback_samples :
  parseJsTsImports parseThrows 8 "import x from './b'; import './c'" "a.ts"
  = ["./b"; "./c"].
Proof. vm_compute. reflexivity. Qed.

Example walk_samples :
  visit 8 0
    (SourceFile
       [ ImportDeclaration (Some (StringLiteral "./a")) [StringLiteral "./a"];
         OtherNode
           [ CallExpression (Identifier "require") [StringLiteral "b"]
               [Identifier "require"; StringLiteral "b"];
             CallExpression ImportKeyword [StringLiteral "./c"]
               [ImportKeyword; StringLiteral "./c"];
             CallExpression (Identifier "f") [StringLiteral "d"]
               [Identifier "f"; StringLiteral "d"] ];
         ExportDeclaration None [] ])
    []
  = Ok ["./a"; "b"; "./c"].
Proof. reflexivity. Qed.

(* ================================================================== *)
(** * Lemmas: sets and lists *)
(* ================================================================== *)

Lemma has_In (s : JsSet) (x : string) : has s x = true <-> In x s.
Proof.
  unfold has. rewrite existsb_exists. split.
  - intros (y & Hy & E). apply String.eqb_eq in E. now subst.
  - intros H. exists x. split; [assumption | apply String.eqb_refl].
Qed.

Lemma add_In (s : JsSet) (x y : string) : In y (add s x) <-> In y s \/ y = x.
Proof.
  unfold add. destruct (has s x) eqn:E.
  - apply has_In in E. split; [tauto | intros [H | ->]; assumption].
  - rewrite in_app_iff. simpl. intuition congruence.
Qed.

Lemma fold_add_In (xs : list string) (s : JsSet) (y : string) :
  In y (fold_left add xs s) <-> In y s \/ In y xs.
Proof.
  revert s. induction xs as [| x xs IH]; intros s; simpl.
  - tauto.
  - rewrite IH, add_In. intuition congruence.
Qed.

(** [new Set(xs)] has the elements of [xs]. *)
Lemma newSet_In (xs : list string) (y : string) : In y (newSet xs) <-> In y xs.
Proof. unfold newSet. rewrite fold_add_In. simpl. tauto. Qed.

Lemma add_NoDup (s : JsSet) (x : string) : NoDup s -> NoDup (add s x).
Proof.
  intros H. unfold add. destruct (has s x) eqn:E; [assumption |].
  apply NoDup_app; [assumption | repeat constructor; simpl; tauto |].
  intros a Ha [<- | []]. apply has_In in Ha. congruence.
Qed.

(** A set holds no element twice. *)
Lemma newSet_NoDup (xs : list string) : NoDup (newSet xs).
Proof.
  unfold newSet. generalize (NoDup_nil string). generalize (@nil string).
  induction xs as [| x xs IH]; intros s H; simpl; [assumption |].
  apply IH, add_NoDup, H.
Qed.

(** A list of distinct names is its own set: insertion order is kept. *)
Lemma fold_add_NoDup (xs : list string) (s : JsSet) :
  NoDup (s ++ xs) -> fold_left add xs s = (s ++ xs)%list.
Proof.
  revert s. induction xs as [| x xs IH]; intros s H; simpl.
  - now rewrite app_nil_r.
  - assert (E : has s x = false).
    { destruct (has s x) eqn:E; [| reflexivity]. apply has_In in E.
      apply NoDup_remove_2 in H. exfalso. apply H, in_or_app. now left. }
    unfold add at 2. rewrite E.
    rewrite IH; rewrite <- app_assoc; simpl; [reflexivity | assumption].
Qed.

Lemma newSet_NoDup_id (xs : list string) : NoDup xs -> newSet xs = xs.
Proof. intros H. unfold newSet. now rewrite fold_add_NoDup. Qed.

Lemma truthy_Some (t : string) : truthy (Some t) = true <-> t <> EmptyString.
Proof. destruct t; simpl; split; congruence. Qed.

(* ================================================================== *)
(** * Lemmas: what resolveImport returns *)
(* ================================================================== *)

Lemma tryExtensions_find (base : string) (exts : list string) (allFiles : JsSet) :
  tryExtensions base exts allFiles
  = find (has allFiles) (map (fun ext => base ++ ext) exts).
Proof.
  induction exts as [| ext exts IH]; simpl; [reflexivity |].
  destruct (has allFiles (base ++ ext)); [reflexivity | exact IH].
Qed.

Lemma tryExtensions_In (base : string) (exts : list string) (allFiles : JsSet)
    (c : string) :
  tryExtensions base exts allFiles = Some c -> In c allFiles.
Proof.
  rewrite tryExtensions_find. intros H. apply find_some in H.
  now apply has_In.
Qed.

Lemma scanFiles_In (importPath : string) (files : list string) (t : string) :
  scanFiles importPath files = Some t -> In t files.
Proof.
  induction files as [| f files IH]; simpl; [discriminate |].
  destruct (_ || _).
  - intros [= ->]. now left.
  - intros H. right. now apply IH.
Qed.

(** The resolver only answers with a known file. *)
Lemma resolveImport_In (sourceFile importPath : string) (allFiles : JsSet)
    (t : string) :
  resolveImport sourceFile importPath allFiles = Some t -> In t allFiles.
Proof.
  unfold resolveImport, resolveRelative, resolveAbsolute.
  destruct (startsWith importPath ".").
  - destruct (tryExtensions _ _ _) eqn:E.
    + intros [= <-]. eapply tryExtensions_In, E.
    + destruct (has allFiles importPath) eqn:Hh.
      * intros [= <-]. now apply has_In.
      * destruct (negb _); [discriminate | apply scanFiles_In].
  - destruct (has allFiles importPath) eqn:Hh.
    + intros [= <-]. now apply has_In.
    + destruct (negb _); [discriminate | apply scanFiles_In].
Qed.

(* ================================================================== *)
(** * Lemmas: the matcher moves forward *)
(* ================================================================== *)

Lemma advances_refl (st : MState) : advances 0 st st.
Proof. exists []. simpl. repeat split; lia. Qed.

Lemma advances_trans (n1 n2 : nat) (a b c : MState) :
  advances n1 a b -> advances n2 b c -> advances (n1 + n2) a c.
Proof.
  intros (w1 & R1 & I1 & L1) (w2 & R2 & I2 & L2). exists (w1 ++ w2)%list.
  rewrite length_app, <- app_assoc, <- R2. repeat split; [assumption | lia | lia].
Qed.

Lemma advances_le (n1 n2 : nat) (a b : MState) :
  n2 <= n1 -> advances n1 a b -> advances n2 a b.
Proof. intros H (w & R & I & L). exists w. repeat split; [assumption .. | lia]. Qed.

Lemma advances_step (c : ascii) (t : chars) (st : MState) :
  rest st = c :: t -> advances 1 st (step c t st).
Proof. intros H. exists [c]. simpl. repeat split; [assumption | lia | lia]. Qed.

Lemma advances_setCap (n j : nat) (w : chars) (st st1 : MState) :
  advances n st st1 -> advances n st (setCap j w st1).
Proof. intros (v & R & I & L). exists v. simpl. repeat split; assumption. Qed.

Lemma plusGreedy_advances (p : ascii -> bool) (k : Cont) (l : chars) :
  forall st st', rest st = l -> plusGreedy p k l st = Some st' ->
  exists st1, advances 1 st st1 /\ k st1 = Some st'.
Proof.
  induction l as [| c t IH]; intros st st' Hr; simpl; [discriminate |].
  destruct (p c); [| discriminate].
  destruct (plusGreedy p k t (step c t st)) as [x |] eqn:E.
  - intros [= ->]. destruct (IH (step c t st) st' eq_refl E) as (st1 & A & K).
    exists st1. split; [| assumption].
    apply (advances_le 2); [lia |].
    apply (advances_trans 1 1 _ (step c t st)); [now apply advances_step | assumption].
  - intros K. exists (step c t st). split; [now apply advances_step | assumption].
Qed.

Lemma starLazy_advances (p : ascii -> bool) (k : Cont) (l : chars) :
  forall st st', rest st = l -> starLazy p k l st = Some st' ->
  exists st1, advances 0 st st1 /\ k st1 = Some st'.
Proof.
  induction l as [| c t IH]; intros st st' Hr; simpl.
  - destruct (k st) as [x |] eqn:E; [| discriminate].
    intros [= ->]. exists st. split; [apply advances_refl | assumption].
  - destruct (k st) as [x |] eqn:E.
    + intros [= ->]. exists st. split; [apply advances_refl | assumption].
    + destruct (p c); [| discriminate]. intros H.
      destruct (IH (step c t st) st' eq_refl H) as (st1 & A & K).
      exists st1. split; [| assumption].
      apply (advances_le 1); [lia |].
      apply (advances_trans 1 0 _ (step c t st)); [now apply advances_step | assumption].
Qed.

(** A successful run of the matcher hands to its continuation a state at
    least [minLen r] characters further on. *)
Lemma m_advances (r : re) :
  forall (k : Cont) (st st' : MState), m r k st = Some st' ->
  exists st1, advances (minLen r) st st1 /\ k st1 = Some st'.
Proof.
  induction r as [| p | a IHa b IHb | a IHa b IHb | p | p | n a IHa | |];
    intros k st st'; simpl.
  - intros H. exists st. split; [apply advances_refl | assumption].
  - destruct (rest st) as [| c t] eqn:R; [discriminate |].
    destruct (p c); [| discriminate]. intros H.
    exists (step c t st). split; [now apply advances_step | assumption].
  - intros H. destruct (IHa _ _ _ H) as (st1 & A1 & H1).
    destruct (IHb _ _ _ H1) as (st2 & A2 & H2).
    exists st2. split; [eapply advances_trans; eassumption | assumption].
  - destruct (m a k st) as [x |] eqn:E.
    + intros [= ->]. destruct (IHa _ _ _ E) as (st1 & A1 & H1).
      exists st1. split; [| assumption].
      eapply advances_le; [| eassumption]. lia.
    + intros H. destruct (IHb _ _ _ H) as (st1 & A1 & H1).
      exists st1. split; [| assumption].
      eapply advances_le; [| eassumption]. lia.
  - now apply plusGreedy_advances.
  - now apply starLazy_advances.
  - intros H. destruct (IHa _ _ _ H) as (st1 & A1 & H1).
    eexists. split; [| exact H1]. now apply advances_setCap.
  - destruct (atLineStart st); [| discriminate].
    intros H. exists st. split; [apply advances_refl | assumption].
  - destruct (rest st); [| discriminate].
    intros H. exists st. split; [apply advances_refl | assumption].
Qed.

(** A match at [i] ends inside the input, at least [minLen r] further on. *)
Lemma matchAt_bounds (r : re) (s : chars) (i : nat) (st : MState) :
  i <= List.length s -> matchAt r s i = Some st ->
  i + minLen r <= idx st <= List.length s.
Proof.
  intros Hi H. apply m_advances in H.
  destruct H as (st1 & (w & R & I & L) & [= ->]).
  simpl in R, I. assert (E := f_equal (@List.length ascii) R).
  rewrite length_skipn, length_app in E. lia.
Qed.

Lemma search_Some (r : re) (s : chars) (n : nat) :
  forall i j st, search r s i n = Some (j, st) ->
  i <= j <= i + n /\ matchAt r s j = Some st
  /\ forall q, i <= q < j -> matchAt r s q = None.
Proof.
  induction n as [| n IH]; intros i j st; simpl;
    destruct (matchAt r s i) as [x |] eqn:E.
  - intros [= <- <-]. repeat split; [lia | lia | assumption | intros; lia].
  - discriminate.
  - intros [= <- <-]. repeat split; [lia | lia | assumption | intros; lia].
  - intros H. destruct (IH _ _ _ H) as (B & M & N).
    repeat split; [lia | lia | assumption |].
    intros q Hq. destruct (Nat.eq_dec q i) as [-> | Hne]; [assumption |].
    apply N. lia.
Qed.

Lemma search_None (r : re) (s : chars) (n : nat) :
  forall i, search r s i n = None ->
  forall q, i <= q <= i + n -> matchAt r s q = None.
Proof.
  induction n as [| n IH]; intros i; simpl;
    destruct (matchAt r s i) as [x |] eqn:E; try discriminate.
  - intros _ q Hq. now replace q with i by lia.
  - intros H q Hq. destruct (Nat.eq_dec q i) as [-> | Hne]; [assumption |].
    apply (IH _ H). lia.
Qed.

Lemma length_list_ascii_of_string (s : string) :
  List.length (list_ascii_of_string s) = String.length s.
Proof. induction s as [| c s IH]; simpl; congruence. Qed.

(** The [exec] loop of a pattern that matches no empty word ends within
    [length s - lastIndex + 1] iterations and pushes all matches. *)
Lemma execLoop_AllMatches (r : re) (s : string) (f : Match -> string) :
  0 < minLen r ->
  forall fuel from out,
    from <= String.length s -> String.length s - from < fuel ->
    exists ms,
      AllMatches r (list_ascii_of_string s) from ms
      /\ textOrder from ms
      /\ execLoop fuel r s f from out = Some (out ++ map f ms)%list.
Proof.
  intros Hpos. induction fuel as [| fuel IH]; intros from out Hle Hfuel; [lia |].
  simpl. unfold exec. rewrite length_list_ascii_of_string.
  destruct (Nat.ltb_spec (String.length s) from) as [Hlt | _]; [lia |].
  destruct (search _ _ _ _) as [[i st] |] eqn:E.
  - apply search_Some in E. destruct E as (B & M & N).
    assert (Hb := matchAt_bounds r (list_ascii_of_string s) i st).
    rewrite length_list_ascii_of_string in Hb.
    specialize (Hb ltac:(lia) M).
    destruct (IH (idx st) (out ++ [f (mkMatch i (idx st) (caps st))])%list)
      as (ms & A & T & X); [lia | lia |].
    exists (mkMatch i (idx st) (caps st) :: ms). repeat split.
    + apply AllMatches_cons; try assumption.
      rewrite length_list_ascii_of_string. lia.
    + simpl. lia.
    + simpl. lia.
    + assumption.
    + rewrite X, <- app_assoc. reflexivity.
  - exists []. repeat split.
    + apply AllMatches_nil. intros q Hq.
      rewrite length_list_ascii_of_string in Hq.
      apply (search_None _ _ _ _ E). lia.
    + simpl. now rewrite app_nil_r.
Qed.

(** The leftmost-first list of matches is determined by the pattern and the
    input. *)
Lemma AllMatches_functional (r : re) (s : chars) (from : nat)
    (ms1 ms2 : list Match) :
  AllMatches r s from ms1 -> AllMatches r s from ms2 -> ms1 = ms2.
Proof.
  intros H1. revert ms2.
  induction H1 as [from N1 | from i st ms B1 M1 N1 A1 IH]; intros ms2 H2;
    inversion H2 as [from' N2 | from' i2 st2 ms' B2 M2 N2 A2]; subst.
  - reflexivity.
  - rewrite N1 in M2 by lia. discriminate.
  - rewrite N2 in M1 by lia. discriminate.
  - assert (i = i2).
    { destruct (Nat.lt_trichotomy i i2) as [Hlt | [He | Hgt]]; [| assumption |].
      - rewrite N2 in M1 by lia. discriminate.
      - rewrite N1 in M2 by lia. discriminate. }
    subst i2. rewrite M1 in M2. injection M2 as <-.
    f_equal. now apply IH.
Qed.

(* ================================================================== *)
(** * Lemmas: what a successful run has read *)
(* ================================================================== *)

Lemma plusGreedy_cons (p : ascii -> bool) (k : Cont) (c : ascii) (t : chars)
    (st : MState) :
  plusGreedy p k (c :: t) st
  = if p c then
      match plusGreedy p k t (step c t st) with
      | Some r => Some r
      | None => k (step c t st)
      end
    else None.
Proof. reflexivity. Qed.

Lemma lit_inv (s : string) :
  forall (k : Cont) (st st' : MState), m (lit s) k st = Some st' ->
  exists st1,
    rest st = (list_ascii_of_string s ++ rest st1)%list
    /\ idx st1 = idx st + String.length s
    /\ caps st1 = caps st
    /\ k st1 = Some st'.
Proof.
  induction s as [| a s IH]; intros k st st';
    cbn [lit m list_ascii_of_string String.length].
  - intros H. exists st. repeat split; [lia | assumption].
  - destruct (rest st) as [| c t] eqn:R; [discriminate |].
    destruct (isChar a c) eqn:E; [| discriminate].
    apply Ascii.eqb_eq in E. subst c. intros H.
    destruct (IH _ _ _ H) as (st1 & R1 & I1 & C1 & K1).
    exists st1. simpl in R1, I1, C1. repeat split.
    + simpl. now rewrite R1.
    + lia.
    + assumption.
    + assumption.
Qed.

(** A successful [C+] has read a non-empty word of the class. *)
Lemma plusGreedy_inv (p : ascii -> bool) (k : Cont) (l : chars) :
  forall st st', plusGreedy p k l st = Some st' ->
  exists w t st1,
    l = (w ++ t)%list /\ w <> [] /\ forallb p w = true
    /\ rest st1 = t /\ idx st1 = idx st + List.length w
    /\ caps st1 = caps st /\ k st1 = Some st'.
Proof.
  induction l as [| c t IH]; intros st st'; [discriminate |].
  rewrite plusGreedy_cons. destruct (p c) eqn:Pc; [| discriminate].
  destruct (plusGreedy p k t (step c t st)) as [x |] eqn:E.
  - intros [= ->].
    destruct (IH _ _ E) as (w & t' & st1 & -> & _ & F & R & I & C & K).
    exists (c :: w), t', st1. simpl in I, C. simpl.
    rewrite Pc, F. repeat split; try assumption; [discriminate | lia].
  - intros K. exists [c], t, (step c t st). simpl. rewrite Pc.
    repeat split; try assumption; [discriminate | lia].
Qed.

(** Before a continuation that always succeeds, [C+] reads the longest
    word of the class. *)
Lemma plusGreedy_inv_max (p : ascii -> bool) (k : Cont) (l : chars) :
  (forall x, k x <> None) ->
  forall st st', plusGreedy p k l st = Some st' ->
  exists w t st1,
    l = (w ++ t)%list /\ w <> [] /\ forallb p w = true
    /\ match t with [] => True | c :: _ => p c = false end
    /\ rest st1 = t /\ idx st1 = idx st + List.length w
    /\ caps st1 = caps st /\ k st1 = Some st'.
Proof.
  intros Hk. induction l as [| c t IH]; intros st st'; [discriminate |].
  rewrite plusGreedy_cons. destruct (p c) eqn:Pc; [| discriminate].
  destruct (plusGreedy p k t (step c t st)) as [x |] eqn:E.
  - intros [= ->].
    destruct (IH _ _ E) as (w & t' & st1 & -> & _ & F & M & R & I & C & K).
    exists (c :: w), t', st1. simpl in I, C. simpl.
    rewrite Pc, F. repeat split; try assumption; [discriminate | lia].
  - intros K. exists [c], t, (step c t st). simpl. rewrite Pc.
    repeat split; try assumption; [discriminate | | lia].
    destruct t as [| d t']; [exact I |].
    rewrite plusGreedy_cons in E. destruct (p d); [| reflexivity].
    destruct (plusGreedy p k t' (step d t' (step c (d :: t') st)));
      [discriminate | now apply Hk in E].
Qed.

Lemma forallb_isSpace_last (w : chars) :
  w <> [] -> forallb isSpace w = true ->
  exists b c, w = (b ++ [c])%list /\ isSpace c = true.
Proof.
  intros Hne F. destruct w as [| a w'] using rev_ind; [congruence |].
  exists w', a. split; [reflexivity |].
  rewrite forallb_app in F. simpl in F.
  apply andb_prop in F. destruct F as (_ & F).
  now rewrite andb_true_r in F.
Qed.

Lemma forallb_isSpace_head (w t : chars) :
  w <> [] -> forallb isSpace w = true ->
  match (w ++ t)%list with [] => True | c :: _ => isSpace c = true end.
Proof.
  destruct w as [| c w']; [congruence |]. simpl. intros _ F.
  now apply andb_prop in F.
Qed.

Lemma stateAt_split (s : chars) (i : nat) :
  i <= List.length s ->
  s = (firstn i s ++ rest (stateAt s i))%list
  /\ idx (stateAt s i) = List.length (firstn i s)
  /\ caps (stateAt s i) = [].
Proof.
  intros Hi. simpl. rewrite firstn_skipn, length_firstn.
  repeat split. lia.
Qed.

Lemma firstn_length_app {A : Type} (w t : list A) :
  firstn (List.length w) (w ++ t) = w.
Proof.
  rewrite firstn_app, Nat.sub_diag, firstn_all. simpl. apply app_nil_r.
Qed.

(** Every match of the import-pattern captures one maximal run. *)
Lemma pyImportRegex_capture (s : chars) (i : nat) (st : MState) :
  i <= List.length s -> matchAt pyImportRegex s i = Some st ->
  capturesMaximalRun s (mkMatch i (idx st) (caps st)).
Proof.
  intros Hi H. destruct (stateAt_split s i Hi) as (S0 & I0 & C0).
  unfold matchAt, pyImportRegex in H. revert H S0 I0 C0.
  generalize (stateAt s i) as st0. intros st0 H S0 I0 C0.
  rewrite length_firstn, Nat.min_l in I0 by assumption.
  change (m (Seq Bol ?x) Some st0)
    with (if atLineStart st0 then m x Some st0 else None) in H.
  destruct (atLineStart st0); [| discriminate].
  change (m (Seq (lit "import") ?x) Some st0)
    with (m (lit "import") (m x Some) st0) in H.
  apply lit_inv in H. destruct H as (st1 & R1 & I1 & C1 & H).
  change (m (Seq (Plus isSpace) ?x) Some st1)
    with (plusGreedy isSpace (m x Some) (rest st1) st1) in H.
  apply plusGreedy_inv in H.
  destruct H as (w1 & t1 & st2 & E1 & N1 & F1 & R2 & I2 & C2 & H).
  change (m (Group 1 (Plus notSpace)) Some st2)
    with (plusGreedy notSpace
            (fun st3 => Some (setCap 1 (firstn (idx st3 - idx st2) (rest st2)) st3))
            (rest st2) st2) in H.
  apply plusGreedy_inv_max in H; [| discriminate].
  destruct H as (w2 & t2 & st3 & E2 & N2 & F2 & M2 & R3 & I3 & C3 & H).
  injection H as <-.
  destruct (forallb_isSpace_last w1 N1 F1) as (b & c & -> & Sc).
  exists (firstn i s ++ list_ascii_of_string "import" ++ b ++ [c])%list, w2, t2.
  simpl groups; simpl index; simpl endIndex. repeat split.
  - rewrite S0 at 1. rewrite R1, E1, <- R2, E2. now rewrite <- !app_assoc.
  - rewrite I3, E2, C3, C2, C1, C0.
    replace (idx st2 + List.length w2 - idx st2) with (List.length w2) by lia.
    now rewrite firstn_length_app.
  - assumption.
  - assumption.
  - exists (firstn i s ++ list_ascii_of_string "import" ++ b)%list, c.
    split; [now rewrite <- !app_assoc | assumption].
  - destruct t2 as [| d t2']; [exact I |].
    unfold notSpace in M2. now apply negb_false_iff in M2.
  - rewrite !length_app, length_firstn. simpl. lia.
  - rewrite !length_app, length_firstn. rewrite length_app in I2.
    simpl in *. lia.
Qed.

(** Every match of the from-pattern captures one maximal run. *)
Lemma pyFromRegex_capture (s : chars) (i : nat) (st : MState) :
  i <= List.length s -> matchAt pyFromRegex s i = Some st ->
  capturesMaximalRun s (mkMatch i (idx st) (caps st)).
Proof.
  intros Hi H. destruct (stateAt_split s i Hi) as (S0 & I0 & C0).
  unfold matchAt, pyFromRegex in H. revert H S0 I0 C0.
  generalize (stateAt s i) as st0. intros st0 H S0 I0 C0.
  rewrite length_firstn, Nat.min_l in I0 by assumption.
  change (m (Seq (lit "from") ?x) Some st0)
    with (m (lit "from") (m x Some) st0) in H.
  apply lit_inv in H. destruct H as (st1 & R1 & I1 & C1 & H).
  change (m (Seq (Plus isSpace) ?x) Some st1)
    with (plusGreedy isSpace (m x Some) (rest st1) st1) in H.
  apply plusGreedy_inv in H.
  destruct H as (w1 & t1 & st2 & E1 & N1 & F1 & R2 & I2 & C2 & H).
  change (m (Seq (Group 1 (Plus notSpace)) ?x) Some st2)
    with (plusGreedy notSpace
            (fun st3 =>
               m x Some (setCap 1 (firstn (idx st3 - idx st2) (rest st2)) st3))
            (rest st2) st2) in H.
  apply plusGreedy_inv in H.
  destruct H as (w2 & t2 & st3 & E2 & N2 & F2 & R3 & I3 & C3 & H).
  change (m (Seq (Plus isSpace) ?x) Some ?y)
    with (plusGreedy isSpace (m x Some) (rest y) y) in H.
  apply plusGreedy_inv in H.
  destruct H as (w3 & t3 & st4 & E3 & N3 & F3 & R4 & I4 & C4 & H).
  apply lit_inv in H. destruct H as (st5 & R5 & I5 & C5 & [= <-]).
  simpl rest in E3. simpl idx in I4. simpl caps in C4.
  destruct (forallb_isSpace_last w1 N1 F1) as (b & c & -> & Sc).
  exists (firstn i s ++ list_ascii_of_string "from" ++ b ++ [c])%list, w2, t2.
  simpl groups; simpl index; simpl endIndex. repeat split.
  - rewrite S0 at 1. rewrite R1, E1, <- R2, E2. now rewrite <- !app_assoc.
  - rewrite C5, C4, I3, E2, C3, C2, C1, C0.
    replace (idx st2 + List.length w2 - idx st2) with (List.length w2) by lia.
    now rewrite firstn_length_app.
  - assumption.
  - assumption.
  - exists (firstn i s ++ list_ascii_of_string "from" ++ b)%list, c.
    split; [now rewrite <- !app_assoc | assumption].
  - rewrite <- R3, E3. now apply forallb_isSpace_head.
  - rewrite !length_app, length_firstn. simpl. lia.
  - rewrite !length_app, length_firstn. rewrite length_app in I2.
    simpl in *. lia.
Qed.

(* ================================================================== *)
(** * The extractors *)
(* ================================================================== *)

Lemma minLen_pyFromRegex : 0 < minLen pyFromRegex.
Proof. simpl. lia. Qed.

Lemma minLen_pyImportRegex : 0 < minLen pyImportRegex.
Proof. simpl. lia. Qed.

Lemma minLen_fallbackRegex : 0 < minLen fallbackRegex.
Proof. simpl. lia. Qed.

(** The two loops of [parsePythonImports] end within the bound the model
    gives them. *)
Lemma parsePythonImportsFuel_enough (content : string) :
  parsePythonImportsFuel (S (String.length content)) content
  = Some (parsePythonImports content).
Proof.
  unfold parsePythonImports, parsePythonImportsFuel.
  destruct (execLoop_AllMatches pyFromRegex content group1 minLen_pyFromRegex
              (S (String.length content)) 0 []) as (ms1 & _ & _ & E1); [lia | lia |].
  rewrite E1.
  destruct (execLoop_AllMatches pyImportRegex content group1 minLen_pyImportRegex
              (S (String.length content)) 0 ([] ++ map group1 ms1)%list)
    as (ms2 & _ & _ & E2); [lia | lia |].
  now rewrite E2.
Qed.

(** So does the loop of [fallbackRegexExtract]. *)
Lemma fallbackRegexExtractFuel_enough (content : string) :
  fallbackRegexExtractFuel (S (String.length content)) content
  = Some (fallbackRegexExtract content).
Proof.
  unfold fallbackRegexExtract, fallbackRegexExtractFuel.
  destruct (execLoop_AllMatches fallbackRegex content group1or2
              minLen_fallbackRegex (S (String.length content)) 0 [])
    as (ms & _ & _ & E); [lia | lia |].
  now rewrite E.
Qed.

(** C6.  The Python extractor returns the captures of all matches of the
    from-pattern in text order, then the captures of all matches of the
    import-pattern in text order; nothing is merged or removed. *)
Theorem C6_python_from_then_import (content : string) :
  exists froms imports : list Match,
    AllMatches pyFromRegex (list_ascii_of_string content) 0 froms
    /\ textOrder 0 froms
    /\ AllMatches pyImportRegex (list_ascii_of_string content) 0 imports
    /\ textOrder 0 imports
    /\ parsePythonImports content
       = (map group1 froms ++ map group1 imports)%list
    /\ parsePythonImportsFuel (S (String.length content)) content
       = Some (parsePythonImports content).
Proof.
  destruct (execLoop_AllMatches pyFromRegex content group1 minLen_pyFromRegex
              (S (String.length content)) 0 []) as (ms1 & A1 & T1 & E1); [lia | lia |].
  destruct (execLoop_AllMatches pyImportRegex content group1 minLen_pyImportRegex
              (S (String.length content)) 0 ([] ++ map group1 ms1)%list)
    as (ms2 & A2 & T2 & E2); [lia | lia |].
  exists ms1, ms2. repeat split; try assumption.
  - unfold parsePythonImports, parsePythonImportsFuel. now rewrite E1, E2.
  - apply parsePythonImportsFuel_enough.
Qed.

(** C10.  Each match of either Python pattern captures exactly one maximal
    run of non-whitespace characters; so [import os, sys] gives the single
    raw import [os,], comma included, and [sys] is not extracted. *)
Theorem C10_python_one_run_per_match :
  (forall (s : chars) (i : nat) (st : MState),
     i <= List.length s ->
     matchAt pyFromRegex s i = Some st \/ matchAt pyImportRegex s i = Some st ->
     capturesMaximalRun s (mkMatch i (idx st) (caps st)))
  /\ parsePythonImports "import os, sys" = ["os,"]
  /\ ~ In "sys" (parsePythonImports "import os, sys").
Proof.
  repeat split.
  - intros s i st Hi [H | H].
    + now apply pyFromRegex_capture.
    + now apply pyImportRegex_capture.
  - vm_compute. intros [H | []]. discriminate.
Qed.

(* ================================================================== *)
(** * Relative resolution *)
(* ================================================================== *)

Lemma rev_pop {A : Type} (a : list A) : rev (pop a) = tl (rev a).
Proof.
  unfold pop. destruct a as [| x a'] using rev_ind; [reflexivity |].
  now rewrite removelast_last, rev_unit.
Qed.

(** The array of the code, read from its end, is the stack of the spec. *)
Lemma rev_resolvePart (parts : list string) (part : string) :
  rev (resolvePart parts part) = foldSegment (rev parts) part.
Proof.
  unfold resolvePart, foldSegment.
  destruct (String.eqb part "."); [reflexivity |].
  destruct (String.eqb part "..").
  - destruct parts as [| x parts'] using rev_ind; [reflexivity |].
    rewrite length_app, Nat.add_comm. simpl.
    now rewrite rev_pop, rev_unit.
  - unfold push. now rewrite rev_unit.
Qed.

Lemma rev_fold_resolvePart (importParts parts : list string) :
  rev (fold_left resolvePart importParts parts)
  = fold_left foldSegment importParts (rev parts).
Proof.
  revert parts. induction importParts as [| part importParts IH];
    intros parts; simpl; [reflexivity |].
  now rewrite IH, rev_resolvePart.
Qed.

Lemma resolvedBase_relativeBase (sourceFile importPath : string) :
  resolvedBase sourceFile importPath = relativeBase sourceFile importPath.
Proof.
  unfold resolvedBase, relativeBase, sourceDirectory.
  now rewrite <- rev_pop, <- rev_fold_resolvePart, rev_involutive.
Qed.

Lemma resolveRelative_spec (sourceFile importPath : string) (allFiles : JsSet) :
  startsWith importPath "." = true ->
  resolveRelative sourceFile importPath allFiles
  = firstKnownCandidate (relativeBase sourceFile importPath) allFiles.
Proof.
  intros H. unfold resolveRelative, firstKnownCandidate. rewrite H.
  now rewrite tryExtensions_find, resolvedBase_relativeBase.
Qed.

(** C3.  For an import that begins with a dot, the resolver returns the first
    of base, base.ts, base.tsx, base.js, base.jsx, base/index.ts and
    base/index.tsx that is a known id, where base is the source's directory
    folded with the import's segments; when none is known it goes on with the
    exact match and the basename scan. *)
Theorem C3_relative_probe (sourceId rawImport : string) (knownIds : JsSet) :
  startsWith rawImport "." = true ->
  (forall c,
     firstKnownCandidate (relativeBase sourceId rawImport) knownIds = Some c ->
     resolveImport sourceId rawImport knownIds = Some c)
  /\ (firstKnownCandidate (relativeBase sourceId rawImport) knownIds = None ->
      resolveImport sourceId rawImport knownIds
      = resolveAbsolute rawImport knownIds).
Proof.
  intros H. unfold resolveImport.
  rewrite (resolveRelative_spec _ _ _ H). split.
  - intros c ->. reflexivity.
  - intros ->. reflexivity.
Qed.

(** C7, as stated, fails: when no candidate under [x/b] is known, the later
    strategies compare the raw import strings, and a known id [./b] is the
    exact match of one import only. *)
Lemma C7_counterexample :
  ~ (forall knownIds : JsSet,
       resolveImport "x/y.ts" "./a/../b" knownIds
       = resolveImport "x/y.ts" "./b" knownIds).
Proof. intros H. specialize (H ["./b"]). vm_compute in H. discriminate. Qed.

(* ================================================================== *)
(** * The basename scan *)
(* ================================================================== *)

Lemma plusGreedy_Eos (w : chars) :
  forall st,
    if isExtension w
    then exists st', plusGreedy notSlashDot (m Eos Some) w st = Some st'
                     /\ idx st' = idx st + List.length w
    else plusGreedy notSlashDot (m Eos Some) w st = None.
Proof.
  induction w as [| c t IH]; intros st; [reflexivity |].
  rewrite plusGreedy_cons.
  change (isExtension (c :: t))
    with (notSlashDot c && forallb notSlashDot t).
  destruct (notSlashDot c); [| reflexivity]. cbn [andb].
  specialize (IH (step c t st)). destruct t as [| d t'].
  - exists (step c [] st). split; [reflexivity | simpl; lia].
  - change (isExtension (d :: t')) with (forallb notSlashDot (d :: t')) in IH.
    destruct (forallb notSlashDot (d :: t')).
    + destruct IH as (st' & E & I). rewrite E. exists st'.
      split; [reflexivity |]. rewrite I. simpl. lia.
    + rewrite IH. reflexivity.
Qed.

Lemma m_extRegex (st : MState) :
  m extRegex Some st
  = match rest st with
    | [] => None
    | c :: w =>
        if isChar "."%char c
        then plusGreedy notSlashDot (m Eos Some) w (step c w st)
        else None
    end.
Proof. unfold extRegex. simpl. destruct (rest st); reflexivity. Qed.

Lemma matchAt_extRegex (s : chars) (i : nat) :
  i <= List.length s ->
  if dotExtension (skipn i s)
  then exists st, matchAt extRegex s i = Some st /\ idx st = List.length s
  else matchAt extRegex s i = None.
Proof.
  intros Hi. unfold matchAt. rewrite m_extRegex.
  change (rest (stateAt s i)) with (skipn i s).
  assert (L := length_skipn i s).
  destruct (skipn i s) as [| c w]; [reflexivity |].
  change (dotExtension (c :: w)) with (isChar "."%char c && isExtension w).
  destruct (isChar "." c); [| reflexivity]. cbn [andb].
  assert (P := plusGreedy_Eos w (step c w (stateAt s i))).
  destruct (isExtension w); [| assumption].
  destruct P as (st & E & I). rewrite E. exists st. split; [reflexivity |].
  rewrite I. simpl in *. lia.
Qed.

Lemma search_extRegex (suffix : chars) :
  forall before : chars,
    match firstDotExtension suffix with
    | Some j =>
        exists st,
          search extRegex (before ++ suffix)%list (List.length before)
            (List.length suffix)
          = Some (List.length before + j, st)
          /\ idx st = List.length (before ++ suffix)%list
    | None =>
        search extRegex (before ++ suffix)%list (List.length before)
          (List.length suffix) = None
    end.
Proof.
  induction suffix as [| c t IH]; intros before.
  - simpl. assert (M := matchAt_extRegex (before ++ [])%list (List.length before)).
    rewrite skipn_app, skipn_all, Nat.sub_diag in M. simpl in M.
    rewrite M; [reflexivity | rewrite length_app; lia].
  - assert (M := matchAt_extRegex (before ++ c :: t)%list (List.length before)).
    rewrite skipn_app, skipn_all, Nat.sub_diag in M.
    change ([] ++ skipn 0 (c :: t))%list with (c :: t) in M.
    specialize (M ltac:(rewrite length_app; lia)).
    change (firstDotExtension (c :: t))
      with (if dotExtension (c :: t) then Some 0
            else option_map S (firstDotExtension t)).
    change (search extRegex (before ++ c :: t)%list (List.length before)
              (List.length (c :: t)))
      with (match matchAt extRegex (before ++ c :: t)%list (List.length before) with
            | Some st => Some (List.length before, st)
            | None => search extRegex (before ++ c :: t)%list
                        (S (List.length before)) (List.length t)
            end).
    destruct (dotExtension (c :: t)).
    + destruct M as (st & -> & I). exists st. now rewrite Nat.add_0_r.
    + rewrite M. specialize (IH (before ++ [c])%list).
      rewrite <- app_assoc, length_app, Nat.add_comm in IH. simpl in IH.
      destruct (firstDotExtension t) as [j |]; simpl.
      * destruct IH as (st & E & I). exists st.
        now rewrite <- Nat.add_succ_comm.
      * assumption.
Qed.

Lemma lastDot_Some_no_extension (t stem ext : chars) :
  lastDot t = Some (stem, ext) -> forallb notSlashDot t = false.
Proof.
  revert stem ext. induction t as [| c t IH]; intros stem ext;
    cbn [lastDot forallb]; [discriminate |].
  destruct (lastDot t) as [[stem' ext'] |].
  - intros _. rewrite (IH _ _ eq_refl). apply andb_false_r.
  - destruct (isChar "." c) eqn:E; [| discriminate]. intros _.
    apply Ascii.eqb_eq in E. subst c. reflexivity.
Qed.

Lemma lastDot_None_firstDotExtension (t : chars) :
  lastDot t = None -> firstDotExtension t = None.
Proof.
  induction t as [| c t IH]; cbn [lastDot firstDotExtension dotExtension];
    [reflexivity |].
  destruct (lastDot t) as [[stem ext] |]; [discriminate |].
  destruct (isChar "." c); [discriminate |]. intros _.
  now rewrite IH.
Qed.

Lemma isExtension_false (t : chars) :
  forallb notSlashDot t = false -> isExtension t = false.
Proof. destruct t; [reflexivity | trivial]. Qed.

(** Cutting at the last dot and cutting at the leftmost dot that starts a
    final extension give the same stem. *)
Lemma lastDot_firstDotExtension (cs : chars) :
  match lastDot cs with
  | Some (stem, ext) => if isExtension ext then stem else cs
  | None => cs
  end
  = match firstDotExtension cs with
    | Some j => firstn j cs
    | None => cs
    end.
Proof.
  induction cs as [| c t IH]; [reflexivity |].
  cbn [lastDot firstDotExtension dotExtension].
  destruct (lastDot t) as [[stem ext] |] eqn:L.
  - assert (F : isExtension t = false)
      by (eapply isExtension_false, lastDot_Some_no_extension, L).
    rewrite F, andb_false_r.
    destruct (firstDotExtension t) as [j |]; cbn [option_map firstn];
      destruct (isExtension ext); congruence.
  - rewrite (lastDot_None_firstDotExtension _ L).
    destruct (isChar "." c); cbn [andb option_map]; [| reflexivity].
    destruct (isExtension t); reflexivity.
Qed.

(** [file.replace(/\.[^/.]+$/, "")] removes the trailing extension. *)
Lemma replaceEmpty_extRegex (id : string) :
  replaceEmpty extRegex id = stripExtension id.
Proof.
  unfold replaceEmpty, stripExtension.
  assert (S := search_extRegex (list_ascii_of_string id) []).
  assert (E := lastDot_firstDotExtension (list_ascii_of_string id)).
  simpl in S.
  destruct (firstDotExtension (list_ascii_of_string id)) as [j |].
  - destruct S as (st & -> & I). rewrite I, skipn_all, app_nil_r, <- E.
    destruct (lastDot _) as [[stem ext] |].
    + destruct (isExtension ext); [reflexivity |].
      apply string_of_list_ascii_of_string.
    + apply string_of_list_ascii_of_string.
  - rewrite S. destruct (lastDot _) as [[stem ext] |]; [| reflexivity].
    destruct (isExtension ext); [| reflexivity].
    rewrite E. symmetry. apply string_of_list_ascii_of_string.
Qed.

Lemma scanFiles_find (importPath : string) (files : list string) :
  scanFiles importPath files = find (suffixMatches importPath) files.
Proof.
  induction files as [| f files IH]; simpl; [reflexivity |].
  unfold suffixMatches at 1. rewrite replaceEmpty_extRegex.
  destruct (_ || _); [reflexivity | exact IH].
Qed.

Lemma popped_split (c : ascii) (s : string) :
  popped (split c s) = Some (last (split c s) EmptyString).
Proof.
  unfold popped. destruct (split c s) eqn:E; [| reflexivity].
  destruct s as [| a s']; simpl in E; [discriminate |].
  destruct (Ascii.eqb a c); [discriminate |].
  destruct (split c s'); discriminate.
Qed.

(** C5.  When the relative step and the exact match have failed: if the last
    segment of the import is not empty, the resolver returns the first known
    id, in insertion order, whose form without extension ends with the import
    or with a slash and the import (none, if there is no such id); if the
    last segment is empty, resolution fails. *)
Theorem C5_basename_scan (sourceId rawImport : string) (knownIds : JsSet) :
  resolveRelative sourceId rawImport knownIds = None ->
  has knownIds rawImport = false ->
  (lastSegment rawImport <> EmptyString ->
   resolveImport sourceId rawImport knownIds
   = find (suffixMatches rawImport) knownIds)
  /\ (lastSegment rawImport = EmptyString ->
      resolveImport sourceId rawImport knownIds = None).
Proof.
  intros Hrel Hexact. unfold resolveImport, resolveAbsolute.
  rewrite Hrel, Hexact, popped_split. fold (lastSegment rawImport).
  rewrite scanFiles_find. split.
  - intros H. destruct (lastSegment rawImport); [congruence | reflexivity].
  - intros ->. reflexivity.
Qed.

(* ================================================================== *)
(** * The graph builder: nodes and edges *)
(* ================================================================== *)

Lemma FileType_eqb_eq (a b : FileType) : FileType_eqb a b = true <-> a = b.
Proof. destruct a, b; simpl; split; congruence. Qed.

Section GraphProperties.

Variable createSourceFile : string -> string -> Result Node.
Variable maxCallDepth : nat.

Let importsOf' := importsOf createSourceFile maxCallDepth.
Let graph := generateDependencyGraph createSourceFile maxCallDepth.

(** C4.  The extractor for .ts, .tsx, .js and .jsx files hands no error on:
    when [ts.createSourceFile] throws, and when the walk over the tree throws,
    its result is that of [fallbackRegexExtract] on the same content, whose
    own loop ends. *)
Theorem C4_fallback_on_error (content fileName : string) :
  (forall e, createSourceFile fileName content = Throw e ->
     parseJsTsImports createSourceFile maxCallDepth content fileName
     = fallbackRegexExtract content)
  /\ (forall sourceFile e,
        createSourceFile fileName content = Ok sourceFile ->
        visit maxCallDepth 0 sourceFile [] = Throw e ->
        parseJsTsImports createSourceFile maxCallDepth content fileName
        = fallbackRegexExtract content)
  /\ fallbackRegexExtractFuel (S (String.length content)) content
     = Some (fallbackRegexExtract content).
Proof.
  unfold parseJsTsImports. repeat split.
  - intros e ->. reflexivity.
  - intros sourceFile e -> H. simpl. now rewrite H.
  - apply fallbackRegexExtractFuel_enough.
Qed.

Lemma linkImport_emitted (f : FileContext) (filePaths : JsSet)
    (links0 : list Link) (imp : string) :
  linkImport f filePaths links0 imp
  = (links0 ++ emittedEdge filePaths f imp)%list.
Proof.
  unfold linkImport, emittedEdge, push.
  destruct (resolveImport (name f) imp filePaths) as [t |]; simpl.
  - destruct t; simpl; [now rewrite app_nil_r | reflexivity].
  - now rewrite app_nil_r.
Qed.

Lemma fold_linkImport (f : FileContext) (filePaths : JsSet)
    (imports : list string) (links0 : list Link) :
  fold_left (linkImport f filePaths) imports links0
  = (links0 ++ flat_map (emittedEdge filePaths f) imports)%list.
Proof.
  revert links0. induction imports as [| imp imports IH]; intros links0; simpl.
  - now rewrite app_nil_r.
  - now rewrite IH, linkImport_emitted, <- app_assoc.
Qed.

Lemma fold_linkFile (filePaths : JsSet) (files : list FileContext)
    (links0 : list Link) :
  fold_left (linkFile createSourceFile maxCallDepth filePaths) files links0
  = (links0 ++ edgesInOrder (emittedEdge filePaths) importsOf' files)%list.
Proof.
  revert links0. induction files as [| f files IH]; intros links0; simpl.
  - now rewrite app_nil_r.
  - rewrite IH. unfold linkFile, edgesInOrder. simpl.
    destruct (FileType_eqb (type f) file).
    + now rewrite fold_linkImport, <- app_assoc.
    + reflexivity.
Qed.

(** The two nested [forEach] loops with their [push] build the edges file by
    file and, within a file, import by import. *)
Lemma links_in_order (files : list FileContext) :
  links (graph files)
  = edgesInOrder (emittedEdge (newSet (map name files))) importsOf' files.
Proof. unfold graph, generateDependencyGraph. simpl. now rewrite fold_linkFile. Qed.

Lemma in_edgesInOrder (edge : FileContext -> string -> list Link)
    (imports : FileContext -> list string) (files : list FileContext) (e : Link) :
  In e (edgesInOrder edge imports files) <->
  exists f imp, In f files /\ type f = file /\ In imp (imports f)
                /\ In e (edge f imp).
Proof.
  unfold edgesInOrder. rewrite in_flat_map. split.
  - intros (f & Hf & He). destruct (FileType_eqb (type f) file) eqn:Ht;
      [| destruct He].
    apply in_flat_map in He. destruct He as (imp & Hi & He).
    exists f, imp. now rewrite <- FileType_eqb_eq.
  - intros (f & imp & Hf & Ht & Hi & He). exists f. split; [assumption |].
    apply FileType_eqb_eq in Ht. rewrite Ht. apply in_flat_map. now exists imp.
Qed.

Lemma in_emittedEdge (filePaths : JsSet) (f : FileContext) (imp : string)
    (e : Link) :
  In e (emittedEdge filePaths f imp) <->
  resolveImport (name f) imp filePaths = Some (target e)
  /\ source e = name f /\ target e <> EmptyString.
Proof.
  unfold emittedEdge.
  destruct (resolveImport (name f) imp filePaths) as [t |]; simpl.
  - destruct t as [| c t]; simpl.
    + split; [tauto | intros ([= <-] & _ & H); congruence].
    + split.
      * intros [<- | []]. simpl. repeat split. discriminate.
      * intros ([= E] & Hs & _). left. destruct e; simpl in *. congruence.
  - split; [tauto | intros (H & _); discriminate].
Qed.

(** When no file has the empty name, every import that resolves is linked. *)
Lemma links_resolved (files : list FileContext) :
  ~ In EmptyString (map name files) ->
  links (graph files)
  = edgesInOrder (resolvedEdge (newSet (map name files))) importsOf' files.
Proof.
  intros Hne. rewrite links_in_order. unfold edgesInOrder.
  apply flat_map_ext. intros f. destruct (FileType_eqb (type f) file);
    [| reflexivity].
  apply flat_map_ext. intros imp. unfold emittedEdge, resolvedEdge.
  destruct (resolveImport _ _ _) as [t |] eqn:E; [| reflexivity].
  apply resolveImport_In in E. apply (proj1 (newSet_In _ _)) in E.
  destruct t; [contradiction | reflexivity].
Qed.

(** C2.  The node list is the file list mapped: one node per input file, in
    input order, and the id of each node is the virtual path ([name]) of its
    file, which is what the spec calls the file id. *)
Theorem C2_nodes_mirror_files (files : list FileContext) :
  List.length (nodes (graph files)) = List.length files
  /\ map node_id (nodes (graph files)) = map name files
  /\ forall i, nth_error (nodes (graph files)) i
               = option_map (fun f => mkNode (name f) (name f) (type f) 1)
                            (nth_error files i).
Proof.
  unfold graph, generateDependencyGraph. simpl. repeat split.
  - apply length_map.
  - rewrite map_map. reflexivity.
  - intros i. apply nth_error_map.
Qed.

(** C1.  Every edge of the result starts and ends at the id of a node of the
    same result, and comes from an import of a code file that the resolver
    resolved to the edge's target: no edge stands for an unresolved import. *)
Theorem C1_edges_between_nodes (files : list FileContext) (e : Link) :
  In e (links (graph files)) ->
  In (source e) (map node_id (nodes (graph files)))
  /\ In (target e) (map node_id (nodes (graph files)))
  /\ exists f imp,
       In f files /\ type f = file /\ In imp (importsOf' f)
       /\ source e = name f
       /\ resolveImport (name f) imp (newSet (map name files))
          = Some (target e).
Proof.
  intros He. rewrite links_in_order in He.
  apply in_edgesInOrder in He. destruct He as (f & imp & Hf & Ht & Hi & He).
  apply in_emittedEdge in He. destruct He as (Hr & Hs & _).
  assert (Hn : map node_id (nodes (graph files)) = map name files)
    by (unfold graph, generateDependencyGraph; simpl; now rewrite map_map).
  rewrite Hn. repeat split.
  - rewrite Hs. now apply in_map.
  - apply resolveImport_In in Hr. now apply (proj1 (newSet_In _ _)) in Hr.
  - now exists f, imp.
Qed.

Lemma resolveImport_self (knownIds : JsSet) :
  In "src/a.ts" knownIds -> ~ In "src/a" knownIds ->
  resolveImport "src/a.ts" "./a" knownIds = Some "src/a.ts".
Proof.
  intros Hin Hout. unfold resolveImport, resolveRelative.
  change (startsWith "./a" ".") with true. cbv iota.
  change (resolvedBase "src/a.ts" "./a") with "src/a".
  unfold extensions, tryExtensions.
  change ("src/a" ++ "") with "src/a". change ("src/a" ++ ".ts") with "src/a.ts".
  destruct (has knownIds "src/a") eqn:E.
  - apply has_In in E. contradiction.
  - apply has_In in Hin. now rewrite Hin.
Qed.

(** C9.  The resolver does not set the importing file aside: a code file
    [src/a.ts] that imports [./a], in a file list without a file [src/a],
    gets an edge from itself to itself. *)
Theorem C9_self_loop (files : list FileContext) (f : FileContext) :
  In f files -> name f = "src/a.ts" -> type f = file ->
  In "./a" (importsOf' f) ->
  ~ In "src/a" (map name files) ->
  In (mkLink "src/a.ts" "src/a.ts") (links (graph files)).
Proof.
  intros Hf Hn Ht Hi Hout. rewrite links_in_order.
  apply in_edgesInOrder. exists f, "./a". repeat split; try assumption.
  apply in_emittedEdge. simpl. rewrite Hn. repeat split; [| discriminate].
  apply resolveImport_self.
  - apply newSet_In. rewrite <- Hn. now apply in_map.
  - intros H. apply Hout. now apply (proj1 (newSet_In _ _)).
Qed.

(** C8 at [emptyNameFiles]: the Python file issues the import [.] twice, the
    resolver resolves it to the known file whose name is the empty string,
    and the graph has no edge, because the guard [if (target)] takes the
    empty string for a failed resolution. *)
Theorem C8_empty_target_not_linked :
  importsOf' (mkFile "1" "a.py" file ("import ." ++ lineFeed ++ "import ."))
  = ["."; "."]
  /\ resolveImport "a.py" "." (newSet (map name emptyNameFiles)) = Some ""
  /\ links (graph emptyNameFiles) = [].
Proof. repeat split; vm_compute; reflexivity. Qed.

End GraphProperties.


Lemma C1_edges_between_nodes_witness :
  let files := [mkFile "1" "src/a.ts" file "import './a'"] in
  let e := mkLink "src/a.ts" "src/a.ts" in
  In (source e) (map node_id (nodes (generateDependencyGraph parseImportDotA 8 files)))
  /\ In (target e) (map node_id (nodes (generateDependencyGraph parseImportDotA 8 files))).
Proof.
  intros files e.
  destruct (C1_edges_between_nodes parseImportDotA 8 files e) as (Hs & Ht & _).
  - vm_compute. left. reflexivity.
  - split; assumption.
Defined.

Lemma C3_relative_probe_witness :
  resolveImport "src/a.ts" "../lib/./b" ["src/a.ts"; "lib/b/index.ts"]
  = Some "lib/b/index.ts".
Proof.
  apply (C3_relative_probe "src/a.ts" "../lib/./b" ["src/a.ts"; "lib/b/index.ts"]);
    reflexivity.
Defined.

Lemma C9_self_loop_witness :
  In (mkLink "src/a.ts" "src/a.ts")
     (links (generateDependencyGraph parseImportDotA 8
               [mkFile "1" "src/a.ts" file "import './a'"])).
Proof.
  apply (C9_self_loop parseImportDotA 8 _ (mkFile "1" "src/a.ts" file "import './a'")).
  - left. reflexivity.
  - reflexivity.
  - reflexivity.
  - vm_compute. left. reflexivity.
  - vm_compute. intros [H | []]. discriminate.
Defined.

Lemma C4_fallback_on_error_witness :
  visit 2 0 importDotA [] = Throw RangeError
  /\ parseJsTsImports parseImportDotA 2 "import './a'" "src/a.ts"
     = fallbackRegexExtract "import './a'".
Proof.
  split; [reflexivity |].
  apply (C4_fallback_on_error parseImportDotA 2 "import './a'" "src/a.ts")
    with (sourceFile := importDotA) (e := RangeError); reflexivity.
Defined.

Lemma C5_basename_scan_witness :
  resolveImport "src/a.ts" "components/Button"
    ["src/a.ts"; "src/components/Button.tsx"; "lib/components/Button.js"]
  = Some "src/components/Button.tsx".
Proof.
  refine (eq_trans
    (proj1 (C5_basename_scan "src/a.ts" "components/Button"
              ["src/a.ts"; "src/components/Button.tsx"; "lib/components/Button.js"]
              eq_refl eq_refl) _) eq_refl).
  vm_compute. discriminate.
Defined.

Lemma C10_python_one_run_per_match_witness :
  exists st,
    matchAt pyImportRegex (list_ascii_of_string "import os, sys") 0 = Some st
    /\ capturesMaximalRun (list_ascii_of_string "import os, sys")
         (mkMatch 0 (idx st) (caps st)).
Proof.
  eexists. split.
  - vm_compute. reflexivity.
  - apply (proj1 C10_python_one_run_per_match).
    + simpl. lia.
    + right. vm_compute. reflexivity.
Defined.

(* ================================================================== *)
(** * Further properties: strings *)
(* ================================================================== *)

Lemma append_assoc (a b c : string) : (a ++ b) ++ c = a ++ (b ++ c).
Proof. induction a as [| x a IH]; simpl; [reflexivity | now rewrite IH]. Qed.

Lemma append_nil_r (a : string) : a ++ "" = a.
Proof. induction a as [| x a IH]; simpl; [reflexivity | now rewrite IH]. Qed.

Lemma split_nonempty (c : ascii) (s : string) : split c s <> [].
Proof.
  destruct s as [| a s']; simpl; [discriminate |].
  destruct (Ascii.eqb a c); [discriminate |].
  destruct (split c s'); discriminate.
Qed.

(** Splitting at a separator splits the parts on both sides of it. *)
Lemma split_app (c : ascii) (a b : string) :
  split c (a ++ String c b) = (split c a ++ split c b)%list.
Proof.
  induction a as [| x a IH]; simpl.
  - now rewrite Ascii.eqb_refl.
  - destruct (Ascii.eqb x c); [now rewrite IH |].
    rewrite IH. assert (N := split_nonempty c a).
    destruct (split c a); [congruence | reflexivity].
Qed.

Lemma split_noSep (c : ascii) (s : string) :
  hasChar c s = false -> split c s = [s].
Proof.
  induction s as [| a s IH]; simpl; [reflexivity |].
  intros H. apply orb_false_iff in H. destruct H as (E & H).
  rewrite E, (IH H). reflexivity.
Qed.

(** [s.split(c).join(c)] is [s]. *)
Lemma join_split (c : ascii) (s : string) :
  join (String c "") (split c s) = s.
Proof.
  induction s as [| a s IH]; [reflexivity |].
  cbn [split]. destruct (Ascii.eqb a c) eqn:E.
  - apply Ascii.eqb_eq in E. subst a.
    assert (N := split_nonempty c s).
    destruct (split c s) as [| h t]; [congruence |].
    change (join (String c "") ("" :: h :: t))
      with ("" ++ String c "" ++ join (String c "") (h :: t)).
    now rewrite IH.
  - assert (N := split_nonempty c s).
    destruct (split c s) as [| h t]; [congruence |].
    destruct t as [| x t].
    + cbn [join] in *. now rewrite IH.
    + change (join (String c "") (String a h :: x :: t))
        with (String a (h ++ String c "" ++ join (String c "") (x :: t))).
      change (join (String c "") (h :: x :: t))
        with (h ++ String c "" ++ join (String c "") (x :: t)) in IH.
      now rewrite IH.
Qed.

Lemma join_snoc (sep : string) (l : list string) (x : string) :
  l <> [] -> join sep (l ++ [x]) = join sep l ++ sep ++ x.
Proof.
  induction l as [| y l IH]; [congruence |]. intros _.
  destruct l as [| z l]; [reflexivity |].
  change (join sep ((y :: z :: l) ++ [x]))
    with (y ++ sep ++ join sep ((z :: l) ++ [x])).
  rewrite IH by discriminate.
  change (join sep (y :: z :: l)) with (y ++ sep ++ join sep (z :: l)).
  now rewrite !append_assoc.
Qed.

Lemma list_ascii_of_string_app (a b : string) :
  list_ascii_of_string (a ++ b)
  = (list_ascii_of_string a ++ list_ascii_of_string b)%list.
Proof. induction a as [| x a IH]; simpl; [reflexivity | now rewrite IH]. Qed.

Lemma substring_all (s : string) : substring 0 (String.length s) s = s.
Proof. induction s as [| a s IH]; simpl; [reflexivity | now rewrite IH]. Qed.

Lemma substring_skip (p t : string) :
  substring (String.length p) (String.length t) (p ++ t) = t.
Proof. induction p as [| a p IH]; simpl; [apply substring_all | exact IH]. Qed.

Lemma substring_cut (s : string) :
  forall n, n <= String.length s ->
  s = substring 0 n s ++ substring n (String.length s - n) s.
Proof.
  induction s as [| a s IH]; intros n Hn.
  - destruct n; reflexivity.
  - destruct n as [| n].
    + simpl. now rewrite substring_all.
    + simpl in *. rewrite <- (IH n) by lia. reflexivity.
Qed.

Lemma length_append (a b : string) :
  String.length (a ++ b) = String.length a + String.length b.
Proof. induction a as [| x a IH]; simpl; [reflexivity | now rewrite IH]. Qed.

(** [s.endsWith(t)] holds exactly when [s] is some prefix followed by [t]. *)
Lemma endsWith_spec (s t : string) :
  endsWith s t = true <-> exists p, s = p ++ t.
Proof.
  unfold endsWith. rewrite andb_true_iff, Nat.leb_le, String.eqb_eq. split.
  - intros (L & E).
    exists (substring 0 (String.length s - String.length t) s).
    rewrite (substring_cut s (String.length s - String.length t)) at 1 by lia.
    replace (String.length s - (String.length s - String.length t))
      with (String.length t) by lia.
    now rewrite E.
  - intros (p & ->). rewrite length_append. split; [lia |].
    replace (String.length p + String.length t - String.length t)
      with (String.length p) by lia.
    apply substring_skip.
Qed.

(* ================================================================== *)
(** * Further properties: the resolver *)
(* ================================================================== *)

(** X1.  Whatever strategy answers, the id the resolver returns is one of the
    known ids it was given. *)
Theorem X1_resolveImport_closed_world (sourceFile importPath : string)
    (allFiles : JsSet) (t : string) :
  resolveImport sourceFile importPath allFiles = Some t -> In t allFiles.
Proof. apply resolveImport_In. Qed.

(** X2.  An import that does not begin with a dot and is itself a known id is
    returned unchanged, from any source file: the exact match comes before
    the basename scan. *)
Theorem X2_exact_match_first (sourceFile importPath : string)
    (allFiles : JsSet) :
  startsWith importPath "." = false -> In importPath allFiles ->
  resolveImport sourceFile importPath allFiles = Some importPath.
Proof.
  intros Hrel Hin. unfold resolveImport, resolveRelative, resolveAbsolute.
  rewrite Hrel. apply has_In in Hin. now rewrite Hin.
Qed.

Lemma plainSegment_inv (seg : string) :
  plainSegment seg = true ->
  hasChar slash seg = false /\ String.eqb seg "." = false
  /\ String.eqb seg ".." = false.
Proof.
  unfold plainSegment. rewrite !andb_true_iff, !negb_true_iff. tauto.
Qed.

Lemma resolvePart_plain (parts : list string) (seg : string) :
  plainSegment seg = true -> resolvePart parts seg = push parts seg.
Proof.
  intros H. apply plainSegment_inv in H. destruct H as (_ & H1 & H2).
  unfold resolvePart. now rewrite H1, H2.
Qed.

Lemma resolvePart_up_after_push (parts : list string) (seg : string) :
  resolvePart (push parts seg) ".." = parts.
Proof.
  unfold resolvePart, push, pop. simpl.
  rewrite length_app, Nat.add_comm. simpl. apply removelast_last.
Qed.

Lemma split_slash_cons (a b : string) :
  split slash (a ++ "/" ++ b) = (split slash a ++ split slash b)%list.
Proof. apply split_app. Qed.

Lemma startsWith_dot_cons (a : ascii) (s : string) :
  startsWith (String a s) "." = if ascii_dec "." a then true else false.
Proof.
  unfold startsWith.
  change (String.prefix "." (String a s))
    with (if ascii_dec "." a then String.prefix "" s else false).
  destruct (ascii_dec "." a); [destruct s; reflexivity | reflexivity].
Qed.

Lemma startsWith_dot_app (p x y : string) :
  startsWith (p ++ "/" ++ x) "." = startsWith (p ++ "/" ++ y) ".".
Proof.
  destruct p as [| a p]; [reflexivity |].
  change ((String a p) ++ "/" ++ x) with (String a (p ++ "/" ++ x)).
  change ((String a p) ++ "/" ++ y) with (String a (p ++ "/" ++ y)).
  now rewrite !startsWith_dot_cons.
Qed.

(** X3.  Relative resolution normalizes the import path: a plain segment
    followed by [..] cancels, and a [.] segment is dropped, wherever they
    stand in the import; the relative step answers alike for the longer and
    the shorter spelling. *)
Theorem X3_relative_normalization (sourceFile p seg q : string)
    (allFiles : JsSet) :
  plainSegment seg = true ->
  resolvedBase sourceFile (p ++ "/" ++ seg ++ "/../" ++ q)
  = resolvedBase sourceFile (p ++ "/" ++ q)
  /\ resolvedBase sourceFile (p ++ "/./" ++ q)
     = resolvedBase sourceFile (p ++ "/" ++ q)
  /\ resolveRelative sourceFile (p ++ "/" ++ seg ++ "/../" ++ q) allFiles
     = resolveRelative sourceFile (p ++ "/" ++ q) allFiles
  /\ resolveRelative sourceFile (p ++ "/./" ++ q) allFiles
     = resolveRelative sourceFile (p ++ "/" ++ q) allFiles.
Proof.
  intros Hseg.
  assert (E1 : resolvedBase sourceFile (p ++ "/" ++ seg ++ "/../" ++ q)
               = resolvedBase sourceFile (p ++ "/" ++ q)).
  { unfold resolvedBase. f_equal.
    change ("/../" ++ q) with ("/" ++ ".." ++ "/" ++ q).
    rewrite !split_slash_cons.
    rewrite (split_noSep slash seg) by (now apply plainSegment_inv).
    change (split slash "..") with [".."].
    rewrite !fold_left_app. cbn [fold_left].
    now rewrite (resolvePart_plain _ _ Hseg), resolvePart_up_after_push. }
  assert (E2 : resolvedBase sourceFile (p ++ "/./" ++ q)
               = resolvedBase sourceFile (p ++ "/" ++ q)).
  { unfold resolvedBase. f_equal.
    change ("/./" ++ q) with ("/" ++ "." ++ "/" ++ q).
    rewrite !split_slash_cons. change (split slash ".") with ["."].
    rewrite !fold_left_app. reflexivity. }
  repeat split; try assumption.
  - unfold resolveRelative.
    rewrite (startsWith_dot_app p (seg ++ "/../" ++ q) q). now rewrite E1.
  - unfold resolveRelative.
    change (p ++ "/./" ++ q) with (p ++ "/" ++ "./" ++ q).
    rewrite (startsWith_dot_app p ("./" ++ q) q).
    change (p ++ "/" ++ "./" ++ q) with (p ++ "/./" ++ q). now rewrite E2.
Qed.

Lemma fold_resolvePart_climb (n : nat) (q : string) :
  fold_left resolvePart (split slash (climb n q)) []
  = fold_left resolvePart (split slash q) [].
Proof.
  induction n as [| n IH]; [reflexivity |].
  change (climb (S n) q) with (".." ++ "/" ++ climb n q).
  rewrite split_slash_cons. change (split slash "..") with [".."].
  rewrite fold_left_app. exact IH.
Qed.

(** X4.  From a file at the top level (no slash in its name) there is no
    directory to leave: any number of leading [../] is ignored, and [../q]
    is probed like [./q]. *)
Theorem X4_no_climbing_above_root (sourceFile q : string) (n : nat)
    (allFiles : JsSet) :
  hasChar slash sourceFile = false ->
  resolvedBase sourceFile (climb n q) = resolvedBase sourceFile q
  /\ resolveRelative sourceFile (climb (S n) q) allFiles
     = resolveRelative sourceFile ("./" ++ q) allFiles.
Proof.
  intros H. unfold resolveRelative, resolvedBase.
  rewrite (split_noSep _ _ H). change (pop [sourceFile]) with (@nil string).
  rewrite !fold_resolvePart_climb. split; [reflexivity |].
  change (startsWith (climb (S n) q) ".") with true.
  change (startsWith ("./" ++ q) ".") with true. cbv iota.
  change ("./" ++ q) with ("." ++ "/" ++ q). rewrite split_slash_cons.
  reflexivity.
Qed.

(** X5.  [./x] names the file [x] beside the importing file, and [../x] the
    file [x] one directory up: the base path is the directory of the source,
    or its parent, followed by a slash and [x]. *)
Theorem X5_sibling_and_parent (dir sub fileName x : string) :
  hasChar slash fileName = false -> hasChar slash sub = false ->
  plainSegment x = true ->
  resolvedBase (dir ++ "/" ++ fileName) ("./" ++ x) = dir ++ "/" ++ x
  /\ resolvedBase (dir ++ "/" ++ sub ++ "/" ++ fileName) ("../" ++ x)
     = dir ++ "/" ++ x.
Proof.
  intros Hf Hs Hx. unfold resolvedBase.
  change ("./" ++ x) with ("." ++ "/" ++ x).
  change ("../" ++ x) with (".." ++ "/" ++ x).
  rewrite !split_slash_cons.
  rewrite (split_noSep _ _ Hf), (split_noSep _ _ Hs),
    (split_noSep slash x) by (now apply plainSegment_inv).
  change (split slash ".") with ["."]. change (split slash "..") with [".."].
  unfold pop. rewrite app_assoc, !removelast_last.
  cbn [app fold_left].
  change (resolvePart (split slash dir) ".") with (split slash dir).
  fold (push (split slash dir) sub). rewrite resolvePart_up_after_push.
  rewrite (resolvePart_plain _ _ Hx). unfold push.
  rewrite join_snoc by apply split_nonempty.
  change "/" with (String slash ""). now rewrite join_split.
Qed.

Lemma notSlashDot_not_dot (c : ascii) :
  notSlashDot c = true -> isChar "."%char c = false.
Proof.
  unfold notSlashDot, isChar. rewrite negb_true_iff, orb_false_iff.
  intros (_ & H). now rewrite Ascii.eqb_sym.
Qed.

Lemma lastDot_no_dot (ext : chars) :
  forallb notSlashDot ext = true -> lastDot ext = None.
Proof.
  induction ext as [| c ext IH]; cbn [lastDot forallb]; [reflexivity |].
  rewrite andb_true_iff. intros (Hc & H).
  now rewrite (IH H), (notSlashDot_not_dot _ Hc).
Qed.

Lemma lastDot_app_dot (stem ext : chars) :
  lastDot ext = None ->
  lastDot (stem ++ "."%char :: ext)%list = Some (stem, ext).
Proof.
  intros H. induction stem as [| c stem IH]; cbn [app lastDot].
  - now rewrite H.
  - now rewrite IH.
Qed.

Lemma isExtension_forallb (ext : chars) :
  isExtension ext = true -> forallb notSlashDot ext = true.
Proof. destruct ext; [discriminate | trivial]. Qed.

Lemma stripExtension_app (stem ext : string) :
  isExtension (list_ascii_of_string ext) = true ->
  stripExtension (stem ++ "." ++ ext) = stem.
Proof.
  intros H. unfold stripExtension.
  rewrite list_ascii_of_string_app.
  change (list_ascii_of_string ("." ++ ext))
    with ("."%char :: list_ascii_of_string ext).
  rewrite lastDot_app_dot
    by (now apply lastDot_no_dot, isExtension_forallb).
  rewrite H. apply string_of_list_ascii_of_string.
Qed.

Lemma lastDot_hasChar (s : string) :
  hasChar "."%char s = false -> lastDot (list_ascii_of_string s) = None.
Proof.
  induction s as [| a s IH]; cbn [hasChar list_ascii_of_string lastDot];
    [reflexivity |].
  rewrite orb_false_iff. intros (Ha & H). rewrite (IH H).
  unfold isChar. now rewrite Ascii.eqb_sym, Ha.
Qed.

(** X6.  Removing the extension from a file name: [stem.ext] becomes [stem]
    when [ext] is a non-empty run without dot or slash (so only the last
    extension goes, and a dot inside a directory name does not count); a name
    without any dot stays as it is. *)
Theorem X6_extension_removed (stem ext id : string) :
  (isExtension (list_ascii_of_string ext) = true ->
   replaceEmpty extRegex (stem ++ "." ++ ext) = stem)
  /\ (hasChar "."%char id = false -> replaceEmpty extRegex id = id).
Proof.
  rewrite !replaceEmpty_extRegex. split.
  - apply stripExtension_app.
  - intros H. unfold stripExtension. now rewrite (lastDot_hasChar _ H).
Qed.

(** X7.  The basename scan matches on text, not on path segments: when some
    known id is any prefix, then the import, then a dot and an extension,
    and the import's last segment is not empty, the import resolves to a
    known id (the first hit of whichever strategy answers). *)
Theorem X7_suffix_of_known_file_resolves (sourceFile importPath pre ext : string)
    (allFiles : JsSet) :
  In (pre ++ importPath ++ "." ++ ext) allFiles ->
  isExtension (list_ascii_of_string ext) = true ->
  lastSegment importPath <> EmptyString ->
  exists t, resolveImport sourceFile importPath allFiles = Some t
            /\ In t allFiles.
Proof.
  intros Hin Hext Hseg.
  destruct (resolveImport sourceFile importPath allFiles) as [t |] eqn:E.
  - exists t. split; [reflexivity | eapply resolveImport_In, E].
  - exfalso. unfold resolveImport, resolveAbsolute in E.
    destruct (resolveRelative sourceFile importPath allFiles); [discriminate |].
    destruct (has allFiles importPath); [discriminate |].
    rewrite popped_split in E. fold (lastSegment importPath) in E.
    destruct (lastSegment importPath) as [| c l]; [congruence |].
    cbn [truthy negb] in E. rewrite scanFiles_find in E.
    apply (find_none _ _ E) in Hin. unfold suffixMatches in Hin.
    rewrite <- append_assoc, stripExtension_app in Hin by assumption.
    apply orb_false_iff in Hin. destruct Hin as (Hin & _).
    assert (T : endsWith (pre ++ importPath) importPath = true)
      by (apply endsWith_spec; now exists pre).
    congruence.
Qed.

(* ================================================================== *)
(** * Further properties: the choice of the extractor *)
(* ================================================================== *)

Lemma m_Alt_inv (a b : re) (k : Cont) (st st' : MState) :
  m (Alt a b) k st = Some st' ->
  m a k st = Some st' \/ m b k st = Some st'.
Proof.
  cbn [m]. destruct (m a k st) as [x |]; [intros [= ->]; now left | now right].
Qed.

Lemma m_Eos_inv (st st' : MState) :
  m Eos Some st = Some st' -> rest st = [].
Proof. cbn [m]. destruct (rest st); [reflexivity | discriminate]. Qed.

Lemma search_found (r : re) (s : chars) (n i q : nat) (st : MState) :
  i <= q <= i + n -> matchAt r s q = Some st ->
  exists j st', search r s i n = Some (j, st').
Proof.
  intros Hq M. destruct (search r s i n) as [[j st'] |] eqn:E.
  - now exists j, st'.
  - rewrite (search_None _ _ _ _ E q Hq) in M. discriminate.
Qed.

Lemma string_of_list_ascii_app (a b : chars) :
  string_of_list_ascii (a ++ b)
  = string_of_list_ascii a ++ string_of_list_ascii b.
Proof. induction a as [| x a IH]; simpl; [reflexivity | now rewrite IH]. Qed.

(** [s] ends with [t] exactly when [t] is what is left of [s] from some
    position on. *)
Lemma endsWith_skipn (s t : string) :
  endsWith s t = true <->
  exists i, i <= String.length s
            /\ skipn i (list_ascii_of_string s) = list_ascii_of_string t.
Proof.
  rewrite endsWith_spec. split.
  - intros (p & ->). exists (String.length p). rewrite length_append.
    split; [lia |].
    rewrite list_ascii_of_string_app, <- length_list_ascii_of_string.
    rewrite skipn_app, skipn_all, Nat.sub_diag. reflexivity.
  - intros (i & _ & H). exists (string_of_list_ascii (firstn i (list_ascii_of_string s))).
    rewrite <- (string_of_list_ascii_of_string t), <- H.
    rewrite <- string_of_list_ascii_app, firstn_skipn.
    symmetry. apply string_of_list_ascii_of_string.
Qed.

(** A match of the suffix pattern has one of the four suffixes left to
    read; and the other way round. *)
Lemma jsTsRegex_matches (st : MState) :
  (exists st', m jsTsRegex Some st = Some st') <->
  rest st = list_ascii_of_string ".ts"
  \/ rest st = list_ascii_of_string ".tsx"
  \/ rest st = list_ascii_of_string ".js"
  \/ rest st = list_ascii_of_string ".jsx".
Proof.
  split.
  - intros (st' & H). unfold jsTsRegex in H.
    change (m (Seq (Chr ?p) ?x) Some st)
      with (match rest st with
            | c :: t => if p c then m x Some (step c t st) else None
            | [] => None
            end) in H.
    destruct (rest st) as [| c t]; [discriminate |].
    destruct (isChar "." c) eqn:Ec; [| discriminate].
    apply Ascii.eqb_eq in Ec. subst c.
    change (m (Seq (Group 1 ?a) Eos) Some ?y)
      with (m a (fun z => m Eos Some
                            (setCap 1 (firstn (idx z - idx y) (rest y)) z)) y)
      in H.
    assert (L : forall w z,
               m (lit w)
                 (fun z => m Eos Some
                    (setCap 1 (firstn (idx z - idx (step "." t st))
                                 (rest (step "." t st))) z))
                 (step "." t st) = Some z ->
               t = list_ascii_of_string w).
    { intros w z Hz. apply lit_inv in Hz.
      destruct Hz as (st1 & R & _ & _ & K). apply m_Eos_inv in K.
      simpl in K, R. rewrite K, app_nil_r in R. exact R. }
    apply m_Alt_inv in H. destruct H as [H | H];
      [apply L in H; subst t; now left |].
    apply m_Alt_inv in H. destruct H as [H | H];
      [apply L in H; subst t; right; now left |].
    apply m_Alt_inv in H. destruct H as [H | H];
      [apply L in H; subst t; right; right; now left |].
    apply L in H. subst t. now repeat right.
  - destruct st as [pv rs ix cp]. simpl.
    intros [-> | [-> | [-> | ->]]]; eexists; reflexivity.
Qed.

Lemma test_jsTsRegex (fileName : string) :
  test jsTsRegex fileName
  = endsWith fileName ".ts" || endsWith fileName ".tsx"
    || endsWith fileName ".js" || endsWith fileName ".jsx".
Proof.
  apply eq_true_iff_eq. rewrite !orb_true_iff, !endsWith_skipn.
  unfold test. rewrite <- length_list_ascii_of_string.
  set (cs := list_ascii_of_string fileName). split.
  - destruct (search jsTsRegex cs 0 (List.length cs)) as [[j st] |] eqn:E;
      [| discriminate].
    intros _. apply search_Some in E. destruct E as (B & M & _).
    assert (J : exists st', m jsTsRegex Some (stateAt cs j) = Some st')
      by (now exists st).
    apply jsTsRegex_matches in J. simpl rest in J.
    destruct J as [J | [J | [J | J]]]; [left; left; left | left; left; right
      | left; right | right]; exists j; split; try assumption; lia.
  - intros H.
    assert (J : exists i, i <= List.length cs
                 /\ exists st', m jsTsRegex Some (stateAt cs i) = Some st').
    { destruct H as [[[(i & L & H) | (i & L & H)] | (i & L & H)] | (i & L & H)];
        exists i; (split; [exact L |]); apply jsTsRegex_matches; simpl rest;
        rewrite H; tauto. }
    destruct J as (i & L & st' & M).
    destruct (search_found jsTsRegex cs (List.length cs) 0 i st') as (j & x & E);
      [lia | exact M |].
    now rewrite E.
Qed.

(** X8.  The extractor for TypeScript and JavaScript is chosen exactly for
    the names that end in [.ts], [.tsx], [.js] or [.jsx]. *)
Theorem X8_parser_chosen_by_suffix (fileName : string) :
  test jsTsRegex fileName
  = endsWith fileName ".ts" || endsWith fileName ".tsx"
    || endsWith fileName ".js" || endsWith fileName ".jsx".
Proof. apply test_jsTsRegex. Qed.

(* ================================================================== *)
(** * Further properties: the regular-expression extractors *)
(* ================================================================== *)

Lemma AllMatches_Forall (r : re) (s : chars) (from : nat) (ms : list Match) :
  AllMatches r s from ms ->
  Forall (fun mt => exists st,
            index mt <= List.length s
            /\ matchAt r s (index mt) = Some st
            /\ mt = mkMatch (index mt) (idx st) (caps st)) ms.
Proof.
  induction 1 as [from N | from i st ms B M N A IH]; constructor.
  - exists st. simpl. repeat split; [lia | assumption].
  - exact IH.
Qed.

Lemma capturesMaximalRun_group1 (s : chars) (mt : Match) :
  capturesMaximalRun s mt ->
  group1 mt <> EmptyString
  /\ forallb notSpace (list_ascii_of_string (group1 mt)) = true
  /\ exists before after,
       s = (before ++ list_ascii_of_string (group1 mt) ++ after)%list.
Proof.
  intros (b & w & a & S & G & N & F & _ & _ & _ & _).
  unfold group1. rewrite G. simpl.
  rewrite list_ascii_of_string_of_list_ascii. repeat split.
  - destruct w; [congruence | discriminate].
  - assumption.
  - now exists b, a.
Qed.

(** X9.  Every raw import the Python extractor returns is a non-empty piece
    of the content without whitespace in it. *)
Theorem X9_python_imports_are_tokens (content x : string) :
  In x (parsePythonImports content) ->
  x <> EmptyString
  /\ forallb notSpace (list_ascii_of_string x) = true
  /\ exists before after,
       list_ascii_of_string content
       = (before ++ list_ascii_of_string x ++ after)%list.
Proof.
  destruct (execLoop_AllMatches pyFromRegex content group1 minLen_pyFromRegex
              (S (String.length content)) 0 []) as (ms1 & A1 & _ & E1); [lia | lia |].
  destruct (execLoop_AllMatches pyImportRegex content group1 minLen_pyImportRegex
              (S (String.length content)) 0 ([] ++ map group1 ms1)%list)
    as (ms2 & A2 & _ & E2); [lia | lia |].
  unfold parsePythonImports, parsePythonImportsFuel. rewrite E1, E2.
  apply AllMatches_Forall in A1, A2. rewrite Forall_forall in A1, A2.
  cbn [app]. rewrite in_app_iff, !in_map_iff.
  intros [(mt & <- & Hm) | (mt & <- & Hm)]; apply capturesMaximalRun_group1.
  - destruct (A1 _ Hm) as (st & L & M & ->). simpl index in *.
    now apply pyFromRegex_capture.
  - destruct (A2 _ Hm) as (st & L & M & ->). simpl index in *.
    now apply pyImportRegex_capture.
Qed.

(** X10.  The import-pattern only matches at the very start of the content
    or right after a line terminator: an [import] further inside a line, an
    indented one included, is not matched by it. *)
Theorem X10_python_import_anchored (s : chars) (i : nat) (st : MState) :
  matchAt pyImportRegex s i = Some st ->
  i = 0
  \/ exists c, nth_error s (i - 1) = Some c /\ isLineTerminator c = true.
Proof.
  unfold matchAt, pyImportRegex.
  change (m (Seq Bol ?x) Some ?y)
    with (if atLineStart y then m x Some y else None).
  destruct (atLineStart (stateAt s i)) eqn:E; [| discriminate].
  intros H. destruct i as [| j]; [now left |]. right.
  unfold atLineStart in E. simpl in E.
  change (S j - 1) with (j - 0). rewrite Nat.sub_0_r.
  destruct (nth_error s j) as [c |] eqn:N; [now exists c |].
  exfalso. apply nth_error_None in N.
  change (m (Seq (lit "import") ?x) Some ?y) with (m (lit "import") (m x Some) y)
    in H.
  apply lit_inv in H. destruct H as (st1 & R & _).
  change (rest (stateAt s (S j))) with (skipn (S j) s) in R.
  rewrite skipn_all2 in R by lia. discriminate.
Qed.

Lemma starLazy_inv (p : ascii -> bool) (k : Cont) (l : chars) :
  forall st st', rest st = l -> starLazy p k l st = Some st' ->
  exists w st1,
    l = (w ++ rest st1)%list /\ forallb p w = true
    /\ caps st1 = caps st /\ k st1 = Some st'.
Proof.
  induction l as [| c t IH]; intros st st' R; simpl.
  - destruct (k st) as [x |] eqn:K; [| discriminate]. intros [= ->].
    exists [], st. now rewrite R.
  - destruct (k st) as [x |] eqn:K.
    + intros [= ->]. exists [], st. now rewrite R.
    + destruct (p c) eqn:Pc; [| discriminate]. intros H.
      destruct (IH (step c t st) st' eq_refl H) as (w & st1 & E & F & C & K1).
      exists (c :: w), st1. simpl. rewrite Pc, F, <- E. now repeat split.
Qed.

Lemma m_Chr_inv (p : ascii -> bool) (k : Cont) (st st' : MState) :
  m (Chr p) k st = Some st' ->
  exists c t, rest st = c :: t /\ p c = true /\ k (step c t st) = Some st'.
Proof.
  cbn [m]. destruct (rest st) as [| c t]; [discriminate |].
  destruct (p c) eqn:Pc; [| discriminate]. intros H. now exists c, t.
Qed.

(** What the quoted part of the fallback pattern, a quote, a captured run of
    characters other than quotes and a quote again, has read. *)
Lemma quoted_inv (n : nat) (st st' : MState) :
  m (Seq (Chr isQuote) (Seq (Group n (Plus notQuote)) (Chr isQuote))) Some st
  = Some st' ->
  exists q1 w q2 after,
    rest st = q1 :: (w ++ q2 :: after)%list
    /\ isQuote q1 = true /\ isQuote q2 = true
    /\ w <> [] /\ forallb notQuote w = true
    /\ caps st' = (n, w) :: caps st.
Proof.
  change (m (Seq (Chr isQuote) ?x) Some st) with (m (Chr isQuote) (m x Some) st).
  intros H. apply m_Chr_inv in H. destruct H as (q1 & t & R & Q1 & H).
  change (m (Seq (Group n (Plus notQuote)) (Chr isQuote)) Some ?y)
    with (plusGreedy notQuote
            (fun z => m (Chr isQuote) Some
                        (setCap n (firstn (idx z - idx y) (rest y)) z))
            (rest y) y) in H.
  apply plusGreedy_inv in H.
  destruct H as (w & t2 & st2 & E & N & F & R2 & I2 & C2 & H).
  apply m_Chr_inv in H. destruct H as (q2 & after & R3 & Q2 & [= <-]).
  simpl in E, R3, I2, C2. subst t t2.
  exists q1, w, q2, after. rewrite R. repeat split; try assumption.
  - now rewrite R3.
  - cbn [caps step setCap]. rewrite I2, C2.
    replace (S (idx st + List.length w) - S (idx st)) with (List.length w) by lia.
    now rewrite firstn_length_app.
Qed.

(** Every match of the fallback pattern captures, in group 1 or in group 2,
    a non-empty piece of the input that has no quote in it and stands between
    two quotes. *)
Lemma fallbackRegex_capture (s : chars) (i : nat) (st : MState) :
  i <= List.length s -> matchAt fallbackRegex s i = Some st ->
  exists before q1 w q2 after,
    s = (before ++ q1 :: w ++ q2 :: after)%list
    /\ isQuote q1 = true /\ isQuote q2 = true
    /\ w <> [] /\ forallb notQuote w = true
    /\ (caps st = [(1, w)] \/ caps st = [(2, w)]).
Proof.
  intros Hi H. destruct (stateAt_split s i Hi) as (S0 & _ & C0).
  unfold matchAt, fallbackRegex in H. revert H S0 C0.
  generalize (stateAt s i) as st0. intros st0 H S0 C0.
  apply m_Alt_inv in H. destruct H as [H | H].
  - change (m (Seq (lit "import") ?x) Some st0)
      with (m (lit "import") (m x Some) st0) in H.
    apply lit_inv in H. destruct H as (st1 & R1 & _ & C1 & H).
    change (m (Seq (Plus isSpace) ?x) Some st1)
      with (plusGreedy isSpace (m x Some) (rest st1) st1) in H.
    apply plusGreedy_inv in H.
    destruct H as (w1 & t1 & st2 & E1 & _ & _ & R2 & _ & C2 & H).
    change (m (Seq (StarLazy anyChar) ?x) Some st2)
      with (starLazy anyChar (m x Some) (rest st2) st2) in H.
    apply starLazy_inv in H; [| reflexivity].
    destruct H as (w2 & st3 & E2 & _ & C3 & H).
    change (m (Seq (lit "from") ?x) Some st3)
      with (m (lit "from") (m x Some) st3) in H.
    apply lit_inv in H. destruct H as (st4 & R4 & _ & C4 & H).
    change (m (Seq (Plus isSpace) ?x) Some st4)
      with (plusGreedy isSpace (m x Some) (rest st4) st4) in H.
    apply plusGreedy_inv in H.
    destruct H as (w5 & t5 & st5 & E5 & _ & _ & R5 & _ & C5 & H).
    apply quoted_inv in H.
    destruct H as (q1 & w & q2 & after & R6 & Q1 & Q2 & N & F & C6).
    exists (firstn i s ++ list_ascii_of_string "import" ++ w1 ++ w2
            ++ list_ascii_of_string "from" ++ w5)%list, q1, w, q2, after.
    repeat split; try assumption.
    + rewrite S0 at 1. rewrite R1, E1, <- R2, E2, R4, E5, <- R5, R6.
      now rewrite <- !app_assoc.
    + left. now rewrite C6, C5, C4, C3, C2, C1, C0.
  - change (m (Seq (lit "import") ?x) Some st0)
      with (m (lit "import") (m x Some) st0) in H.
    apply lit_inv in H. destruct H as (st1 & R1 & _ & C1 & H).
    change (m (Seq (Plus isSpace) ?x) Some st1)
      with (plusGreedy isSpace (m x Some) (rest st1) st1) in H.
    apply plusGreedy_inv in H.
    destruct H as (w1 & t1 & st2 & E1 & _ & _ & R2 & _ & C2 & H).
    apply quoted_inv in H.
    destruct H as (q1 & w & q2 & after & R6 & Q1 & Q2 & N & F & C6).
    exists (firstn i s ++ list_ascii_of_string "import" ++ w1)%list,
      q1, w, q2, after.
    repeat split; try assumption.
    + rewrite S0 at 1. rewrite R1, E1, <- R2, R6. now rewrite <- !app_assoc.
    + right. now rewrite C6, C2, C1, C0.
Qed.

(** X11.  Every raw import of the regular-expression fallback is a non-empty
    piece of the content that has no quote character in it and stands
    between two quote characters there. *)
Theorem X11_fallback_imports_are_quoted (content x : string) :
  In x (fallbackRegexExtract content) ->
  x <> EmptyString
  /\ forallb notQuote (list_ascii_of_string x) = true
  /\ exists before q1 q2 after,
       isQuote q1 = true /\ isQuote q2 = true
       /\ list_ascii_of_string content
          = (before ++ q1 :: list_ascii_of_string x ++ q2 :: after)%list.
Proof.
  destruct (execLoop_AllMatches fallbackRegex content group1or2
              minLen_fallbackRegex (S (String.length content)) 0 [])
    as (ms & A & _ & E); [lia | lia |].
  unfold fallbackRegexExtract, fallbackRegexExtractFuel. rewrite E.
  apply AllMatches_Forall in A. rewrite Forall_forall in A.
  cbn [app]. rewrite in_map_iff. intros (mt & <- & Hm).
  destruct (A _ Hm) as (st & L & M & ->). simpl index in *.
  destruct (fallbackRegex_capture _ _ _ L M)
    as (b & q1 & w & q2 & a & S & Q1 & Q2 & N & F & C).
  assert (G : group1or2 (mkMatch (index mt) (idx st) (caps st))
              = string_of_list_ascii w).
  { unfold group1or2. simpl groups.
    destruct C as [-> | ->]; simpl; [| reflexivity].
    destruct w; [congruence | reflexivity]. }
  rewrite G, list_ascii_of_string_of_list_ascii. repeat split.
  - destruct w; [congruence | discriminate].
  - assumption.
  - now exists b, q1, q2, a.
Qed.

(* ================================================================== *)
(** * Further properties: the walk over the syntax tree *)
(* ================================================================== *)

Lemma Node_children_ind (P : Node -> Prop) :
  (forall node, Forall P (childrenOf node) -> P node) ->
  forall node, P node.
Proof.
  intros H. fix IH 1. intros node. apply H.
  destruct node as [cs | sp cs | sp cs | e args cs | t | t | | cs]; simpl;
    try constructor;
    induction cs as [| c cs IHcs]; constructor; auto.
Qed.

Lemma visit_eq (limit depth : nat) (node : Node) (imports : list string) :
  visit limit depth node imports
  = if limit <=? depth then Throw RangeError
    else forEachChild (visit limit (S depth)) (childrenOf node)
           (collect node imports).
Proof. destruct node; reflexivity. Qed.

Lemma height_eq (node : Node) :
  height node = S (list_max (map height (childrenOf node))).
Proof. destruct node; reflexivity. Qed.

Lemma preorder_eq (node : Node) :
  preorder node
  = (collect node [] ++ flat_map preorder (childrenOf node))%list.
Proof. destruct node; simpl; try reflexivity; now rewrite app_nil_r. Qed.

(** [visit] only appends to the array at a node. *)
Lemma collect_app (node : Node) (imports : list string) :
  collect node imports = (imports ++ collect node [])%list.
Proof.
  assert (S : forall sp, pushSpecifier imports sp
                         = (imports ++ pushSpecifier [] sp)%list).
  { intros [[] |]; simpl; now rewrite ?app_nil_r. }
  assert (A : forall args, pushFirstArgument imports args
                           = (imports ++ pushFirstArgument [] args)%list).
  { intros [| [] args]; simpl; now rewrite ?app_nil_r. }
  destruct node as [cs | sp cs | sp cs | e args cs | t | t | | cs]; simpl;
    rewrite ?app_nil_r; auto.
  destruct e; simpl; rewrite ?app_nil_r; auto.
  destruct (String.eqb text "require"); rewrite ?app_nil_r; auto.
Qed.

Lemma forEachChild_spec (limit depth : nat) (cs : list Node) :
  Forall (fun c => forall imports,
            visit limit (S depth) c imports
            = if S depth + height c <=? limit
              then Ok (imports ++ preorder c)%list
              else Throw RangeError) cs ->
  forall imports,
    forEachChild (visit limit (S depth)) cs imports
    = if forallb (fun c => S depth + height c <=? limit) cs
      then Ok (imports ++ flat_map preorder cs)%list
      else Throw RangeError.
Proof.
  induction 1 as [| c cs Hc _ IH]; intros imports.
  - cbn [forEachChild forallb flat_map]. now rewrite app_nil_r.
  - change (forEachChild (visit limit (S depth)) (c :: cs) imports)
      with (bind (visit limit (S depth) c imports)
                 (forEachChild (visit limit (S depth)) cs)).
    cbn [forallb flat_map]. rewrite Hc.
    destruct (S depth + height c <=? limit); cbn [bind andb].
    + rewrite IH. destruct (forallb _ cs); [now rewrite app_assoc | reflexivity].
    + reflexivity.
Qed.

Lemma forallb_height (limit depth : nat) (cs : list Node) :
  depth < limit ->
  forallb (fun c => S depth + height c <=? limit) cs
  = (depth + S (list_max (map height cs)) <=? limit).
Proof.
  intros Hd. apply eq_true_iff_eq.
  rewrite forallb_forall, Nat.leb_le.
  assert (E : depth + S (list_max (map height cs)) <= limit
              <-> list_max (map height cs) <= limit - S depth) by lia.
  rewrite E, list_max_le, Forall_forall. split.
  - intros H k Hk. apply in_map_iff in Hk. destruct Hk as (c & <- & Hc).
    specialize (H c Hc). apply Nat.leb_le in H. lia.
  - intros H c Hc. apply Nat.leb_le.
    specialize (H (height c) (in_map height _ _ Hc)). lia.
Qed.

Lemma visit_spec (limit : nat) (node : Node) :
  forall depth imports,
    visit limit depth node imports
    = if depth + height node <=? limit
      then Ok (imports ++ preorder node)%list
      else Throw RangeError.
Proof.
  induction node as [node IH] using Node_children_ind.
  intros depth imports. rewrite visit_eq, height_eq, preorder_eq.
  destruct (Nat.leb_spec limit depth) as [Hle | Hlt].
  - destruct (Nat.leb_spec (depth + S (list_max (map height (childrenOf node))))
                limit); [lia | reflexivity].
  - rewrite forEachChild_spec.
    + rewrite (forallb_height _ _ _ Hlt), (collect_app node imports).
      now rewrite app_assoc.
    + eapply Forall_impl; [| exact IH]. intros c Hc imps. apply Hc.
Qed.

(** X12.  The walk over a syntax tree whose height fits the call stack ends
    normally and appends to the array the specifiers of the whole tree in
    pre-order, nested nodes included; over a deeper tree it throws a
    [RangeError], whatever it had collected. *)
Theorem X12_walk_is_preorder (limit depth : nat) (node : Node)
    (imports : list string) :
  visit limit depth node imports
  = if depth + height node <=? limit
    then Ok (imports ++ preorder node)%list
    else Throw RangeError.
Proof. apply visit_spec. Qed.

(** X13.  What the extractor for TypeScript and JavaScript returns: the
    pre-order specifiers of the tree when the parser gives one that fits the
    call stack, otherwise (the parser threw, or the tree is too deep) the
    result of the regular-expression fallback on the content. *)
Theorem X13_parseJsTsImports_result
    (createSourceFile : string -> string -> Result Node) (limit : nat)
    (content fileName : string) :
  parseJsTsImports createSourceFile limit content fileName
  = match createSourceFile fileName content with
    | Ok tree =>
        if height tree <=? limit then preorder tree
        else fallbackRegexExtract content
    | Throw _ => fallbackRegexExtract content
    end.
Proof.
  unfold parseJsTsImports.
  destruct (createSourceFile fileName content) as [tree | e]; [| reflexivity].
  simpl. rewrite visit_spec. simpl.
  destruct (height tree <=? limit); reflexivity.
Qed.

(* ================================================================== *)
(** * Further properties: the graph *)
(* ================================================================== *)

Lemma length_flat_map_le {A B : Type} (f : A -> list B) (g : A -> nat)
    (l : list A) :
  (forall a, List.length (f a) <= g a) ->
  List.length (flat_map f l) <= list_sum (map g l).
Proof.
  intros H. induction l as [| a l IH]; simpl; [lia |].
  rewrite length_app. specialize (H a). lia.
Qed.

Lemma list_sum_ones {A : Type} (l : list A) :
  list_sum (map (fun _ => 1) l) = List.length l.
Proof. induction l as [| a l IH]; simpl; [reflexivity | now rewrite IH]. Qed.

Section MoreGraphProperties.

Variable createSourceFile : string -> string -> Result Node.
Variable maxCallDepth : nat.

Let importsOf' := importsOf createSourceFile maxCallDepth.
Let graph := generateDependencyGraph createSourceFile maxCallDepth.

(** X14.  When no file has the empty name, the edge list is, file by file in
    input order and within a code file in extraction order, one edge for each
    occurrence of an import that resolves, from the file to the id the
    resolver returned; repeated imports give repeated edges. *)
Theorem X14_edges_of_resolved_imports (files : list FileContext) :
  ~ In EmptyString (map name files) ->
  links (graph files)
  = edgesInOrder (resolvedEdge (newSet (map name files))) importsOf' files.
Proof. apply links_resolved. Qed.

(** X15.  The graph never has more edges than the code files have raw
    imports. *)
Theorem X15_no_more_edges_than_imports (files : list FileContext) :
  List.length (links (graph files))
  <= list_sum
       (map (fun f => if FileType_eqb (type f) file
                      then List.length (importsOf' f) else 0) files).
Proof.
  unfold graph. rewrite links_in_order. unfold edgesInOrder.
  apply length_flat_map_le. intros f.
  destruct (FileType_eqb (type f) file); [| simpl; lia].
  rewrite <- (list_sum_ones (importsOf' f)).
  apply length_flat_map_le. intros imp.
  unfold emittedEdge. destruct (resolveImport _ _ _) as [[| c t] |]; simpl; lia.
Qed.

(** X16.  A file that is not of kind [file], or whose name ends in none of
    [.ts], [.tsx], [.js], [.jsx] and [.py], gives the graph its name as a
    known id and nothing else: the edges are those of the other files,
    whatever its content. *)
Theorem X16_unparsed_file_adds_no_edge (before after : list FileContext)
    (f : FileContext) :
  type f <> file
  \/ endsWith (name f) ".ts" || endsWith (name f) ".tsx"
     || endsWith (name f) ".js" || endsWith (name f) ".jsx"
     || endsWith (name f) ".py" = false ->
  links (graph (before ++ f :: after))
  = edgesInOrder
      (emittedEdge (newSet (map name (before ++ f :: after))))
      importsOf' (before ++ after).
Proof.
  intros H. unfold graph. rewrite links_in_order. unfold edgesInOrder.
  rewrite !flat_map_app. f_equal. cbn [flat_map].
  destruct H as [H | H].
  - destruct (FileType_eqb (type f) file) eqn:E; [| reflexivity].
    now apply FileType_eqb_eq in E.
  - apply orb_false_iff in H. destruct H as (H1 & H2).
    unfold importsOf'. unfold importsOf.
    rewrite test_jsTsRegex, H1, H2.
    destruct (FileType_eqb (type f) file); reflexivity.
Qed.

(** X17.  The set of known ids holds each file name once and holds nothing
    else; when the names are distinct it enumerates them in input order. *)
Theorem X17_known_ids (files : list FileContext) :
  NoDup (newSet (map name files))
  /\ (forall x, In x (newSet (map name files)) <-> In x (map name files))
  /\ (NoDup (map name files) -> newSet (map name files) = map name files).
Proof.
  split; [apply newSet_NoDup |]. split; [intros x; apply newSet_In |].
  apply newSet_NoDup_id.
Qed.

Lemma links_closed (files : list FileContext) (e : Link) :
  In e (links (graph files)) ->
  In (source e) (map name files) /\ In (target e) (map name files).
Proof.
  unfold graph. rewrite links_in_order. intros He.
  apply in_edgesInOrder in He. destruct He as (f & imp & Hf & _ & _ & He).
  apply (in_emittedEdge createSourceFile maxCallDepth) in He. destruct He as (Hr & Hs & _).
  apply resolveImport_In in Hr. apply (proj1 (newSet_In _ _)) in Hr.
  split; [| exact Hr]. rewrite Hs. now apply in_map.
Qed.

Lemma includes_empty (s : string) : includes s "" = true.
Proof. destruct s; reflexivity. Qed.

Lemma filter_all {A : Type} (p : A -> bool) (l : list A) :
  (forall a, In a l -> p a = true) -> filter p l = l.
Proof.
  induction l as [| a l IH]; intros H; simpl; [reflexivity |].
  rewrite (H a) by now left. rewrite IH; [reflexivity |].
  intros b Hb. apply H. now right.
Qed.

(** X18.  With the type filter on [all] and an empty search term the view
    draws the whole graph the service built: every node, and every edge,
    none of them dropped as dangling. *)
Theorem X18_view_shows_whole_graph (files : list FileContext) :
  graphData (nodes (graph files)) (viewLinks (links (graph files))) "all" ""
  = (nodes (graph files), links (graph files)).
Proof.
  unfold graphData. rewrite map_id.
  assert (N : filter
                (fun n =>
                   (String.eqb "all" "all"
                    || String.eqb (typeString (node_type n)) "all")
                   && includes (toLowerCase (node_name n)) (toLowerCase ""))
                (nodes (graph files)) = nodes (graph files)).
  { apply filter_all. intros n _. apply includes_empty. }
  rewrite N. f_equal. unfold viewLinks. rewrite map_map.
  cbn [endpointId view_source view_target].
  assert (M : map (fun l => mkLink (source l) (target l)) (links (graph files))
              = links (graph files)).
  { rewrite <- (map_id (links (graph files))) at 2.
    apply map_ext. now intros []. }
  rewrite M. apply filter_all. intros e He.
  apply links_closed in He. destruct He as (Hs & Ht).
  assert (I : map node_id (nodes (graph files)) = map name files)
    by (unfold graph, generateDependencyGraph; simpl; now rewrite map_map).
  rewrite I. apply andb_true_iff. split; apply has_In, newSet_In; assumption.
Qed.

End MoreGraphProperties.

(* ================================================================== *)
(** * Further properties at sample inputs *)
(* ================================================================== *)

Lemma X1_resolveImport_closed_world_witness :
  In "src/b.ts" ["src/a.ts"; "src/b.ts"].
Proof.
  apply (X1_resolveImport_closed_world "src/a.ts" "./b"). reflexivity.
Defined.

Lemma X2_exact_match_first_witness :
  resolveImport "src/a.ts" "lib/util.ts" ["src/a.ts"; "lib/util.ts"]
  = Some "lib/util.ts".
Proof.
  apply X2_exact_match_first; [reflexivity | right; left; reflexivity].
Defined.

Lemma X3_relative_normalization_witness :
  resolvedBase "x/y.ts" ("./lib" ++ "/" ++ "a" ++ "/../" ++ "b")
  = resolvedBase "x/y.ts" ("./lib" ++ "/" ++ "b").
Proof.
  apply (X3_relative_normalization "x/y.ts" "./lib" "a" "b" []). reflexivity.
Defined.

Lemma X4_no_climbing_above_root_witness :
  resolvedBase "main.ts" (climb 2 "lib/b") = resolvedBase "main.ts" "lib/b".
Proof.
  apply (X4_no_climbing_above_root "main.ts" "lib/b" 2 []). reflexivity.
Defined.

Lemma X5_sibling_and_parent_witness :
  resolvedBase ("src" ++ "/" ++ "a.ts") ("./" ++ "b") = "src" ++ "/" ++ "b"
  /\ resolvedBase ("src" ++ "/" ++ "ui" ++ "/" ++ "a.ts") ("../" ++ "b")
     = "src" ++ "/" ++ "b".
Proof. apply X5_sibling_and_parent; reflexivity. Defined.

Lemma X6_extension_removed_witness :
  replaceEmpty extRegex ("a.tar" ++ "." ++ "gz") = "a.tar"
  /\ replaceEmpty extRegex "Makefile" = "Makefile".
Proof.
  split.
  - apply (X6_extension_removed "a.tar" "gz" ""). reflexivity.
  - apply (X6_extension_removed "" "" "Makefile"). reflexivity.
Defined.

Lemma X7_suffix_of_known_file_resolves_witness :
  exists t,
    resolveImport "src/a.ts" "Button" ["src/a.ts"; "src/My" ++ "Button" ++ "." ++ "tsx"]
    = Some t
    /\ In t ["src/a.ts"; "src/My" ++ "Button" ++ "." ++ "tsx"].
Proof.
  apply (X7_suffix_of_known_file_resolves "src/a.ts" "Button" "src/My" "tsx").
  - right. left. reflexivity.
  - reflexivity.
  - vm_compute. discriminate.
Defined.

Lemma X9_python_imports_are_tokens_witness :
  "os," <> EmptyString
  /\ forallb notSpace (list_ascii_of_string "os,") = true.
Proof.
  destruct (X9_python_imports_are_tokens "import os, sys" "os,") as (H1 & H2 & _).
  - vm_compute. left. reflexivity.
  - split; assumption.
Defined.

Lemma X10_python_import_anchored_witness :
  exists st,
    matchAt pyImportRegex (list_ascii_of_string ("x" ++ lineFeed ++ "import y")) 2
    = Some st
    /\ (2 = 0
        \/ exists c,
             nth_error (list_ascii_of_string ("x" ++ lineFeed ++ "import y")) (2 - 1)
             = Some c
             /\ isLineTerminator c = true).
Proof.
  eexists. split.
  - vm_compute. reflexivity.
  - eapply X10_python_import_anchored. vm_compute. reflexivity.
Defined.

Lemma X11_fallback_imports_are_quoted_witness :
  "./b" <> EmptyString
  /\ forallb notQuote (list_ascii_of_string "./b") = true.
Proof.
  destruct (X11_fallback_imports_are_quoted "import x from './b'" "./b")
    as (H1 & H2 & _).
  - vm_compute. left. reflexivity.
  - split; assumption.
Defined.

Lemma X14_edges_of_resolved_imports_witness :
  links (generateDependencyGraph parseThrows 8 threeFiles)
  = edgesInOrder (resolvedEdge (newSet (map name threeFiles)))
      (importsOf parseThrows 8) threeFiles.
Proof.
  apply X14_edges_of_resolved_imports.
  vm_compute. intros [H | [H | [H | []]]]; discriminate.
Defined.

Lemma X16_unparsed_file_adds_no_edge_witness :
  links (generateDependencyGraph parseThrows 8
           ([mkFile "1" "src/a.ts" file "import { b } from './b'";
             mkFile "2" "src/b.ts" file "export const b = 1"]
            ++ mkFile "3" "logo.png" image "import './b'" :: []))
  = edgesInOrder
      (emittedEdge (newSet (map name threeFiles))) (importsOf parseThrows 8)
      ([mkFile "1" "src/a.ts" file "import { b } from './b'";
        mkFile "2" "src/b.ts" file "export const b = 1"] ++ []).
Proof.
  apply (X16_unparsed_file_adds_no_edge parseThrows 8).
  left. discriminate.
Defined.

Lemma X17_known_ids_witness :
  newSet (map name threeFiles) = map name threeFiles.
Proof.
  apply (X17_known_ids threeFiles). vm_compute.
  repeat constructor; simpl; intuition discriminate.
Defined.

(* ================================================================== *)
(** * Normalization of the import and the later strategies *)
(* ================================================================== *)

Lemma prefix_app_l (t : string) :
  forall s u, String.prefix t s = true -> String.prefix t (s ++ u) = true.
Proof.
  induction t as [| a t IH]; intros s u; [now destruct (s ++ u) |].
  destruct s as [| b s]; [discriminate |].
  change (String.prefix (String a t) (String b s))
    with (if ascii_dec a b then String.prefix t s else false).
  change (String.prefix (String a t) (String b s ++ u))
    with (if ascii_dec a b then String.prefix t (s ++ u) else false).
  destruct (ascii_dec a b); [apply IH | discriminate].
Qed.

Lemma includes_app_l (s t u : string) :
  includes s t = true -> includes (s ++ u) t = true.
Proof.
  induction s as [| a s IH]; cbn [includes append].
  - rewrite orb_false_r. intros H.
    destruct t; [now destruct u | discriminate].
  - rewrite !orb_true_iff. intros [H | H].
    + left. now apply (prefix_app_l t (String a s) u).
    + right. now apply IH.
Qed.

Lemma includes_app_r (s t u : string) :
  includes u t = true -> includes (s ++ u) t = true.
Proof.
  intros H. induction s as [| a s IH]; [exact H |].
  cbn [includes append]. rewrite IH. apply orb_true_r.
Qed.

Lemma lastDot_split (cs : chars) :
  forall stem ext, lastDot cs = Some (stem, ext) ->
  cs = (stem ++ "."%char :: ext)%list.
Proof.
  induction cs as [| c cs IH]; intros stem ext; cbn [lastDot]; [discriminate |].
  destruct (lastDot cs) as [[stem' ext'] |].
  - intros [= <- <-]. simpl. now rewrite <- (IH stem' ext').
  - destruct (isChar "." c) eqn:E; [| discriminate].
    apply Ascii.eqb_eq in E. subst c. now intros [= <- <-].
Qed.

(** Removing the extension leaves a beginning of the id. *)
Lemma stripExtension_prefix (id : string) :
  exists r, id = stripExtension id ++ r.
Proof.
  unfold stripExtension.
  destruct (lastDot (list_ascii_of_string id)) as [[stem ext] |] eqn:L;
    [| exists ""; now rewrite append_nil_r].
  destruct (isExtension ext); [| exists ""; now rewrite append_nil_r].
  exists (string_of_list_ascii ("."%char :: ext)).
  rewrite <- string_of_list_ascii_app, <- (lastDot_split _ _ _ L).
  symmetry. apply string_of_list_ascii_of_string.
Qed.

(** An id in which no dot is directly followed by a slash does not end, with
    or without its extension, with [./b]. *)
Lemma no_dot_slash_no_suffix (id : string) :
  includes id "./" = false -> endsWith (stripExtension id) "./b" = false.
Proof.
  intros H. destruct (endsWith (stripExtension id) "./b") eqn:E; [| reflexivity].
  apply endsWith_spec in E. destruct E as (p & E).
  destruct (stripExtension_prefix id) as (r & R).
  rewrite E in R. rewrite R in H.
  rewrite includes_app_l in H; [discriminate |].
  apply includes_app_r. reflexivity.
Qed.

Lemma find_all_false {A : Type} (p : A -> bool) (l : list A) :
  (forall a, In a l -> p a = false) -> find p l = None.
Proof.
  induction l as [| a l IH]; intros H; simpl; [reflexivity |].
  rewrite (H a) by now left. apply IH. intros b Hb. apply H. now right.
Qed.

Lemma endsWith_app (s u t : string) :
  endsWith s (u ++ t) = true -> endsWith s t = true.
Proof.
  rewrite !endsWith_spec. intros (p & ->). exists (p ++ u).
  now rewrite append_assoc.
Qed.

(** When no known id, its extension removed, ends with [./b], neither raw
    spelling is matched by the exact match or by the basename scan. *)
Lemma resolveAbsolute_no_suffix (knownIds : JsSet) :
  (forall id, In id knownIds -> endsWith (stripExtension id) "./b" = false) ->
  resolveAbsolute "./a/../b" knownIds = None
  /\ resolveAbsolute "./b" knownIds = None.
Proof.
  intros H.
  assert (S : forall u, scanFiles (u ++ "./b") knownIds = None).
  { intros u. rewrite scanFiles_find. apply find_all_false. intros id Hid.
    unfold suffixMatches. apply orb_false_iff.
    split; destruct (endsWith (stripExtension id) _) eqn:E; try reflexivity.
    - apply endsWith_app in E. now rewrite (H id Hid) in E.
    - apply (endsWith_app _ ("/" ++ u)) in E. now rewrite (H id Hid) in E. }
  assert (X : forall raw, endsWith (stripExtension raw) "./b" = true ->
                          has knownIds raw = false).
  { intros raw T. destruct (has knownIds raw) eqn:E; [| reflexivity].
    apply has_In in E. now rewrite (H raw E) in T. }
  unfold resolveAbsolute. split.
  - rewrite (X "./a/../b") by reflexivity. exact (S "./a/.").
  - rewrite (X "./b") by reflexivity. exact (S "").
Qed.

(** C7, amended.  Both imports fold to the base [x/b], so the relative step
    has the same outcome for both.  Resolving [./a/../b] and resolving [./b]
    from [x/y.ts] give the same result for every set of known ids in which
    one of the probed candidates is known, or in which no id, its extension
    removed, ends with [./b]; the latter holds in particular when no known
    id has a dot directly followed by a slash. *)
Theorem C7_relative_step_normalizes (knownIds : JsSet) :
  resolvedBase "x/y.ts" "./a/../b" = "x/b"
  /\ resolvedBase "x/y.ts" "./b" = "x/b"
  /\ resolveRelative "x/y.ts" "./a/../b" knownIds
     = resolveRelative "x/y.ts" "./b" knownIds
  /\ (resolveRelative "x/y.ts" "./b" knownIds <> None
      \/ (forall id, In id knownIds ->
            endsWith (stripExtension id) "./b" = false)
      \/ (forall id, In id knownIds -> includes id "./" = false) ->
      resolveImport "x/y.ts" "./a/../b" knownIds
      = resolveImport "x/y.ts" "./b" knownIds).
Proof.
  assert (E : resolveRelative "x/y.ts" "./a/../b" knownIds
              = resolveRelative "x/y.ts" "./b" knownIds) by reflexivity.
  split; [reflexivity |]. split; [reflexivity |]. split; [exact E |].
  intros H. unfold resolveImport. rewrite E.
  destruct (resolveRelative "x/y.ts" "./b" knownIds) as [c |]; [reflexivity |].
  assert (N : forall id, In id knownIds ->
                endsWith (stripExtension id) "./b" = false).
  { destruct H as [H | [H | H]]; [congruence | exact H |].
    intros id Hid. apply no_dot_slash_no_suffix, H, Hid. }
  destruct (resolveAbsolute_no_suffix knownIds N) as (-> & ->). reflexivity.
Qed.

(* ================================================================== *)
(** * The graph the view draws *)
(* ================================================================== *)

(** X19.  Whatever the data, the type filter and the search term: the nodes
    the view draws are exactly the nodes of the data that pass the type test
    and whose lower-cased name includes the lower-cased search term; the
    links it draws are exactly the links of the data, read as pairs of ids,
    whose two ends are ids of drawn nodes.  So the drawn graph is closed. *)
Theorem X19_view_graph_is_closed (dataNodes : list GraphNode)
    (dataLinks : list ViewLink) (activeType searchTerm : string) :
  let shown := fst (graphData dataNodes dataLinks activeType searchTerm) in
  let kept := snd (graphData dataNodes dataLinks activeType searchTerm) in
  (forall n,
     In n shown <->
     In n dataNodes
     /\ (activeType = "all" \/ typeString (node_type n) = activeType)
     /\ includes (toLowerCase (node_name n)) (toLowerCase searchTerm) = true)
  /\ (forall l,
        In l kept <->
        (exists v, In v dataLinks
                   /\ l = mkLink (endpointId (view_source v))
                                 (endpointId (view_target v)))
        /\ In (source l) (map node_id shown)
        /\ In (target l) (map node_id shown)).
Proof.
  unfold graphData. cbn [fst snd]. rewrite map_id. split.
  - intros n. rewrite filter_In, andb_true_iff, orb_true_iff, !String.eqb_eq.
    reflexivity.
  - intros l. rewrite filter_In, in_map_iff, andb_true_iff, !has_In, !newSet_In.
    split.
    + intros ((v & <- & Hv) & Hs & Ht). split; [now exists v | now split].
    + intros ((v & Hv & ->) & Hs & Ht). split; [now exists v | now split].
Qed.

(* ================================================================== *)
(** * Further properties at sample inputs, continued *)
(* ================================================================== *)

Lemma C7_relative_step_normalizes_witness :
  resolveImport "x/y.ts" "./a/../b" ["x/y.ts"; "x/c.ts"; "README.md"]
  = resolveImport "x/y.ts" "./b" ["x/y.ts"; "x/c.ts"; "README.md"].
Proof.
  apply (proj2 (proj2 (proj2
    (C7_relative_step_normalizes ["x/y.ts"; "x/c.ts"; "README.md"])))).
  right. right. intros id [<- | [<- | [<- | []]]]; reflexivity.
Defined.

Lemma X19_view_graph_is_closed_witness :
  In "src/a.ts" (map node_id (fst (graphData twoNodes twoLinks "file" "A.T"))).
Proof.
  apply (proj2 (X19_view_graph_is_closed twoNodes twoLinks "file" "A.T")
           (mkLink "src/a.ts" "src/a.ts")).
  vm_compute. left. reflexivity.
Defined.
